(** * Fatal-error reporting and the cleanup-callback registry (lib/util/fatal.c)

    A shallow embedding of [lib/util/fatal.c]: the singly linked list of
    cleanup callbacks kept in the static variable [callbacks], the two
    functions that maintain it, the loop that drains it, and the eight
    warn/fatal entry points built on [_warning].

    The list nodes live in an explicit heap of malloc'ed blocks.  A block
    that has been freed is gone for good (addresses are never handed out
    twice), so that a read through a dangling or a null pointer shows up as
    the outcome [Undefined] instead of being silently given a meaning. *)

From stdpp Require Import base option list strings gmap.
From Stdlib Require Import ZArith Ascii.

(** * The program *)

(** ** Data *)

(** Addresses of heap blocks and of functions; the null pointer is [None]. *)
Abbreviation addr := positive (only parsing).
Abbreviation funptr := positive (only parsing).
Abbreviation ptr := (option positive) (only parsing).

(** [struct sudo_fatal_callback]: the list link and the function pointer. *)
Record sudo_fatal_callback := Callback {
  entries : ptr;   (* SLIST_ENTRY(sudo_fatal_callback) entries: sle_next *)
  func : funptr    (* the function pointer member, void func(void) *)
}.

(** What the process does that an observer can see.  [EvPrintf] is a call of
    the output channel, [EvCall] the invocation of the function of the list
    node [cb].  [EvReg] and [EvDereg] are ghost records of a registration and
    of a deregistration that reported success, kept only so that theorems can
    tell what became of each entry while the list was being drained. *)
Inductive event :=
| EvPrintf (msg_type : Z) (text : string)
| EvCall (cb : addr) (f : funptr)
| EvReg (cb : addr) (f : funptr)
| EvDereg (cb : addr) (f : funptr).

Global Instance event_eq_dec : EqDecision event.
Proof. solve_decision. Defined.

(** The process state: the live heap blocks, the next address malloc will
    hand out, the list head [callbacks.slh_first], the number of malloc calls
    made so far and the log of events. *)
Record state := State {
  heap : gmap positive sudo_fatal_callback;
  brk : addr;
  callbacks : ptr;
  mallocs : nat;
  log : list event
}.

Definition set_heap (h : gmap positive sudo_fatal_callback) (st : state) : state :=
  State h (brk st) (callbacks st) (mallocs st) (log st).

Definition set_callbacks (p : ptr) (st : state) : state :=
  State (heap st) (brk st) p (mallocs st) (log st).

Definition add_log (e : event) (st : state) : state :=
  State (heap st) (brk st) (callbacks st) (mallocs st) (log st ++ [e]).

(** The state of a process that has just started: no block, empty list. *)
Definition initial_state : state := State ∅ 1%positive None 0 [].

(** ** Outcomes and the monad of the embedding *)

(** A C function either returns, calls [exit], runs into behaviour the
    language leaves undefined (a null or dangling pointer is dereferenced,
    a block is freed twice), or is still running when the fuel of the model
    is used up. *)
Inductive result (A : Type) :=
| Return (st : state) (a : A)
| Exit (st : state) (status : Z)
| Undefined
| OutOfFuel.
Arguments Return {A} st a.
Arguments Exit {A} st status.
Arguments Undefined {A}.
Arguments OutOfFuel {A}.

Definition M (A : Type) : Type := state → result A.

Global Instance M_ret : MRet M := λ A a st, Return st a.

Global Instance M_bind : MBind M := λ A B f m st,
  match m st with
  | Return st' a => f a st'
  | Exit st' c => Exit st' c
  | Undefined => Undefined
  | OutOfFuel => OutOfFuel
  end.

Definition get : M state := λ st, Return st st.
Definition modify (f : state → state) : M unit := λ st, Return (f st) tt.
Definition undefined {A} : M A := λ _, Undefined.
Definition out_of_fuel {A} : M A := λ _, OutOfFuel.
Definition exit {A} (status : Z) : M A := λ st, Exit st status.
Definition emit (e : event) : M unit := modify (add_log e).

(** Modelled from the spec: EXIT_FAILURE of <stdlib.h>, the fixed failure
    code of the fatal path (unsuccessful termination). *)
Definition EXIT_FAILURE : Z := 1.

(** ** Memory *)

(** Reading [*p]: undefined for the null pointer and for a block that is not
    (or no longer) allocated. *)
Definition load (p : ptr) : M sudo_fatal_callback := λ st,
  match p with
  | None => Undefined
  | Some a =>
    match heap st !! a with
    | Some c => Return st c
    | None => Undefined
    end
  end.

(** Writing [*p = c]. *)
Definition store (p : ptr) (c : sudo_fatal_callback) : M unit := λ st,
  match p with
  | None => Undefined
  | Some a =>
    match heap st !! a with
    | Some _ => Return (set_heap (<[a := c]> (heap st)) st) tt
    | None => Undefined
    end
  end.

(** [p->entries.sle_next = q] and [p->func = f]. *)
Definition set_next (p q : ptr) : M unit :=
  c ← load p; store p (Callback q (func c)).

Definition set_func (p : ptr) (f : funptr) : M unit :=
  c ← load p; store p (Callback (entries c) f).

(** [free(p)]: nothing for the null pointer, undefined for a block that is
    not allocated. *)
Definition free (p : ptr) : M unit := λ st,
  match p with
  | None => Return st tt
  | Some a =>
    match heap st !! a with
    | Some _ => Return (set_heap (delete a (heap st)) st) tt
    | None => Undefined
    end
  end.

(** The contents of a block fresh from malloc are indeterminate; the model
    fills it with this value, which the code overwrites before reading. *)
Definition fresh_block : sudo_fatal_callback := Callback None 1%positive.

(** ** What a callback does *)

(** The code behind a registered function pointer, as far as the registry is
    concerned: a callback may call the two registry functions any number of
    times and look at what they return. *)
Inductive body :=
| Done
| CallRegister (f : funptr) (k : Z → body)
| CallDeregister (f : funptr) (k : Z → body).

(** ** Formatted output *)

Definition newline : string := String (Ascii.ascii_of_nat 10) EmptyString.

(** What a string directive prints for its argument; [null] is the text the
    output channel prints for a null pointer. *)
Definition render (null : string) (arg : option string) : string :=
  match arg with
  | Some s => s
  | None => null
  end.

(** printf restricted to what fatal.c needs of it: ordinary characters and
    the string directive. *)
Fixpoint vformat (null : string) (fmt : string) (args : list (option string))
    : string :=
  match fmt with
  | EmptyString => EmptyString
  | String c rest =>
    if Ascii.eqb c "%"%char then
      match rest with
      | String d rest' =>
        if Ascii.eqb d "s"%char then
          match args with
          | a :: args' => render null a +:+ vformat null rest' args'
          | [] => render null None +:+ vformat null rest' []
          end
        else String c (vformat null rest args)
      | EmptyString => String c EmptyString
      end
    else String c (vformat null rest args)
  end.

(** ** What surrounds the code *)

(** The process the code runs in: whether the [n]-th call of malloc
    (counting from 0) finds memory, and the code of every function. *)
Class Process := {
  malloc_ok : nat → bool;
  prog : funptr → body
}.

(** The collaborators of [_warning], none of which is defined in fatal.c:
    the type of the argument list behind a format template;
    [sudo_evasprintf], which builds the formatted string and leaves the null
    pointer when it cannot (or has no template to work from); [getprogname]
    and [sudo_warn_strerror], which supply the two other strings of the line;
    and what the output channel prints for a null pointer passed where the
    format has a string directive (C leaves this undefined; the printf
    implementations sudo runs on print a fixed text). *)
Class Host := {
  va_list : Type;
  sudo_evasprintf : option string → va_list → option string;
  getprogname : string;
  sudo_warn_strerror : Z → string;
  null_text : string
}.

Section CODE.

Context {P : Process} {H : Host}.

Definition malloc : M ptr := λ st,
  if malloc_ok (mallocs st) then
    Return (State (<[brk st := fresh_block]> (heap st)) (Pos.succ (brk st))
                  (callbacks st) (S (mallocs st)) (log st))
           (Some (brk st))
  else
    Return (State (heap st) (brk st) (callbacks st) (S (mallocs st)) (log st))
           None.

(** ** The list macros of queue.h *)

(** queue.h is not among the sources.  The spec describes the registry as a
    singly linked collection whose new entries are linked at the front and
    whose first entry is the one the drain removes; it says nothing more of
    the macros, which are given here the meaning they have in the BSD
    <sys/queue.h> that sudo ships.  The head of the list is the static
    variable [callbacks], the link field is [entries]. *)

(** Modelled from the spec: SLIST_FIRST of queue.h,
    [SLIST_FIRST(head)] is [((head)->slh_first)]. *)
Definition SLIST_FIRST : M ptr := λ st, Return st (callbacks st).

(** Modelled from the spec: SLIST_NEXT of queue.h,
    [SLIST_NEXT(elm, field)] is [((elm)->field.sle_next)]. *)
Definition SLIST_NEXT (elm : ptr) : M ptr :=
  c ← load elm; mret (entries c).

(** Modelled from the spec: SLIST_INSERT_HEAD of queue.h, which links a new
    entry at the front:
    [SLIST_NEXT(elm, field) = SLIST_FIRST(head); SLIST_FIRST(head) = elm]. *)
Definition SLIST_INSERT_HEAD (elm : ptr) : M unit :=
  first ← SLIST_FIRST;
  set_next elm first;;
  modify (set_callbacks elm).

(** Modelled from the spec: SLIST_REMOVE_HEAD of queue.h, which removes the
    first entry:
    [SLIST_FIRST(head) = SLIST_NEXT(SLIST_FIRST(head), field)]. *)
Definition SLIST_REMOVE_HEAD : M unit :=
  first ← SLIST_FIRST;
  nx ← SLIST_NEXT first;
  modify (set_callbacks nx).

(** Modelled from the spec: SLIST_REMOVE_AFTER of queue.h, which unlinks the
    entry that follows [elm]:
    [SLIST_NEXT(elm, field) = SLIST_NEXT(SLIST_NEXT(elm, field), field)]. *)
Definition SLIST_REMOVE_AFTER (elm : ptr) : M unit :=
  nx ← SLIST_NEXT elm;
  nxnx ← SLIST_NEXT nx;
  set_next elm nxnx.

(** Modelled from the spec: the loop variable [varp] of
    SLIST_FOREACH_PREVPTR of queue.h,
    [for (varp = &SLIST_FIRST(head); (var = *varp) != NULL;
          varp = &SLIST_NEXT(var, field))].
    It points at a pointer cell: the list head, or the link field of a
    node; in either case the cell holds the pointer to the node [var] the
    loop stands on. *)
Inductive link :=
| HeadLink                (* &SLIST_FIRST(head) *)
| NextLink (elm : addr).  (* &SLIST_NEXT(elm, field) *)

(** Reading [*varp]. *)
Definition deref (varp : link) : M ptr :=
  match varp with
  | HeadLink => SLIST_FIRST
  | NextLink elm => SLIST_NEXT (Some elm)
  end.

(** ** sudo_fatal_callback_register *)

(** The SLIST_FOREACH loop of the duplicate check,
    [for (cb = SLIST_FIRST(head); cb; cb = SLIST_NEXT(cb, entries))].  The
    walks of the list get one unit of fuel per live block and one more: a
    walk that needs more than that has come round a cycle. *)
Fixpoint register_scan (n : nat) (f : funptr) (cb : ptr) : M bool :=
  match cb with
  | None => mret false
  | Some _ =>
    match n with
    | O => out_of_fuel
    | S n' =>
      c ← load cb;
      if decide (f = func c) then mret true            (* dupe! *)
      else register_scan n' f (entries c)
    end
  end.

Definition sudo_fatal_callback_register (f : funptr) : M Z :=
  st ← get;
  first ← SLIST_FIRST;
  dupe ← register_scan (S (size (heap st))) f first;
  if dupe : bool then mret (-1)%Z
  else
    cb ← malloc;
    match cb with
    | None => mret (-1)%Z
    | Some a =>
      set_func cb f;;
      SLIST_INSERT_HEAD cb;;
      emit (EvReg a f);;
      mret 0%Z
    end.

(** ** sudo_fatal_callback_deregister *)

(** The SLIST_FOREACH_PREVPTR loop with its body.  [prev] is the loop
    variable of that name and [cb] is read through it on every turn; the
    argument [*prev] of SLIST_REMOVE_AFTER is read through it once more. *)
Fixpoint deregister_scan (n : nat) (f : funptr) (prev : link) : M Z :=
  cb ← deref prev;
  match cb with
  | None => mret (-1)%Z
  | Some a =>
    match n with
    | O => out_of_fuel
    | S n' =>
      c ← load cb;
      if decide (func c = f) then
        first ← SLIST_FIRST;
        (if decide (cb = first) then SLIST_REMOVE_HEAD
         else elm ← deref prev; SLIST_REMOVE_AFTER elm);;
        free cb;;
        emit (EvDereg a f);;
        mret 0%Z
      else deregister_scan n' f (NextLink a)
    end
  end.

Definition sudo_fatal_callback_deregister (f : funptr) : M Z :=
  st ← get;
  deregister_scan (S (size (heap st))) f HeadLink.

(** ** do_cleanup *)

(** Running the code of a callback. *)
Fixpoint run_body (b : body) : M unit :=
  match b with
  | Done => mret tt
  | CallRegister f k => r ← sudo_fatal_callback_register f; run_body (k r)
  | CallDeregister f k => r ← sudo_fatal_callback_deregister f; run_body (k r)
  end.

(** [cb->func()]: the pointer is read from the node, then the function
    behind it runs. *)
Definition invoke (cb : ptr) : M unit :=
  c ← load cb;
  match cb with
  | Some a => emit (EvCall a (func c));; run_body (prog (func c))
  | None => undefined
  end.

(** Each turn of the while loop costs one unit of fuel. *)
Fixpoint do_cleanup (fuel : nat) : M unit :=
  match fuel with
  | O => out_of_fuel
  | S fuel' =>
    cb ← SLIST_FIRST;
    match cb with
    | None => mret tt
    | Some _ =>
      SLIST_REMOVE_HEAD;;
      invoke cb;;
      free cb;;
      do_cleanup fuel'
    end
  end.

(** ** The warn/fatal dispatcher *)

(** Modelled from the spec: SUDO_CONV_ERROR_MSG of sudo_plugin.h, the
    severity tag of an error message (its number is 3 in the plugin
    interface; nothing depends on it). *)
Definition SUDO_CONV_ERROR_MSG : Z := 3.

(** Modelled from the spec: the lookup [_()] of gettext.h, which is
    transparent to the code: it hands back the template it is given. *)
Definition gettext (msgid : string) : string := msgid.

(** Modelled from the spec: the output channel [sudo_printf], which is given
    a severity tag and a formatted line; the line is built from the format
    and its arguments as printf does. *)
Definition sudo_printf (msg_type : Z) (fmt : string)
    (args : list (option string)) : M unit :=
  emit (EvPrintf msg_type (vformat null_text fmt args)).

(** [str] is the string [sudo_evasprintf] leaves behind, null when it has
    none.  It is the formatter's own block, released by [efree] at the end:
    it never is on the registry's heap and is not modelled as a block. *)
Definition _warning (errnum : Z) (fmt : option string) (ap : va_list) : M unit :=
  let str := sudo_evasprintf fmt ap in
  if decide (errnum ≠ 0%Z) then
    match fmt with
    | Some _ =>
      sudo_printf SUDO_CONV_ERROR_MSG
        (gettext ("%s: %s: %s" +:+ newline))
        [Some getprogname; str; Some (sudo_warn_strerror errnum)]
    | None =>
      sudo_printf SUDO_CONV_ERROR_MSG
        (gettext ("%s: %s" +:+ newline))
        [Some getprogname; Some (sudo_warn_strerror errnum)]
    end
  else
    sudo_printf SUDO_CONV_ERROR_MSG
      (gettext ("%s: %s" +:+ newline))
      [Some getprogname; Some (default "(null)" str)].

(** The entry points.  [errno] is the value of the C variable of that name
    when the function is entered; the variadic functions receive their
    arguments as the list [ap] that va_start would make of them. *)
Definition sudo_fatal_nodebug (fuel : nat) (errno : Z) (fmt : option string)
    (ap : va_list) : M unit :=
  _warning errno fmt ap;;
  do_cleanup fuel;;
  exit EXIT_FAILURE.

Definition sudo_fatalx_nodebug (fuel : nat) (fmt : option string)
    (ap : va_list) : M unit :=
  _warning 0 fmt ap;;
  do_cleanup fuel;;
  exit EXIT_FAILURE.

Definition sudo_vfatal_nodebug (fuel : nat) (errno : Z) (fmt : option string)
    (ap : va_list) : M unit :=
  _warning errno fmt ap;;
  do_cleanup fuel;;
  exit EXIT_FAILURE.

Definition sudo_vfatalx_nodebug (fuel : nat) (fmt : option string)
    (ap : va_list) : M unit :=
  _warning 0 fmt ap;;
  do_cleanup fuel;;
  exit EXIT_FAILURE.

Definition sudo_warn_nodebug (errno : Z) (fmt : option string)
    (ap : va_list) : M unit :=
  _warning errno fmt ap.

Definition sudo_warnx_nodebug (fmt : option string) (ap : va_list) : M unit :=
  _warning 0 fmt ap.

Definition sudo_vwarn_nodebug (errno : Z) (fmt : option string)
    (ap : va_list) : M unit :=
  _warning errno fmt ap.

Definition sudo_vwarnx_nodebug (fmt : option string) (ap : va_list) : M unit :=
  _warning 0 fmt ap.

(** The entry points of the two families, by name. *)
Inductive fatal_entry := Fatal | Fatalx | Vfatal | Vfatalx.
Inductive warn_entry := Warn | Warnx | Vwarn | Vwarnx.

Definition call_fatal (e : fatal_entry) (fuel : nat) (errno : Z)
    (fmt : option string) (ap : va_list) : M unit :=
  match e with
  | Fatal => sudo_fatal_nodebug fuel errno fmt ap
  | Fatalx => sudo_fatalx_nodebug fuel fmt ap
  | Vfatal => sudo_vfatal_nodebug fuel errno fmt ap
  | Vfatalx => sudo_vfatalx_nodebug fuel fmt ap
  end.

Definition call_warn (e : warn_entry) (errno : Z)
    (fmt : option string) (ap : va_list) : M unit :=
  match e with
  | Warn => sudo_warn_nodebug errno fmt ap
  | Warnx => sudo_warnx_nodebug fmt ap
  | Vwarn => sudo_vwarn_nodebug errno fmt ap
  | Vwarnx => sudo_vwarnx_nodebug fmt ap
  end.

End CODE.

(** The error number an entry point hands to [_warning]: the value of errno
    for the functions without x, zero for those with x. *)
Definition fatal_errnum (e : fatal_entry) (errno : Z) : Z :=
  match e with
  | Fatal | Vfatal => errno
  | Fatalx | Vfatalx => 0%Z
  end.

Definition warn_errnum (e : warn_entry) (errno : Z) : Z :=
  match e with
  | Warn | Vwarn => errno
  | Warnx | Vwarnx => 0%Z
  end.

(** * The registry as a list *)

(** [path h p l q]: starting from the pointer [p] and following the links, the
    heap [h] holds the nodes [l] (address and function of each, in list
    order) and, after them, the pointer [q]. *)
Fixpoint path (h : gmap positive sudo_fatal_callback) (p : ptr)
    (l : list (positive * positive)) (q : ptr) : Prop :=
  match l with
  | [] => p = q
  | (a, f) :: l' =>
    p = Some a ∧
    match h !! a with
    | Some c => func c = f ∧ path h (entries c) l' q
    | None => False
    end
  end.

(** A list that ends with the null pointer. *)
Definition chain (h : gmap positive sudo_fatal_callback) (p : ptr)
    (l : list (positive * positive)) : Prop :=
  path h p l None.

(** [ends h q]: the pointer [q] is not that of a live node, so that a walk
    stops there, having read the null pointer or about to read freed
    memory. *)
Definition ends (h : gmap positive sudo_fatal_callback) (q : ptr) : Prop :=
  match q with
  | Some d => h !! d = None
  | None => True
  end.

(** malloc has not yet handed out the address [brk] or any later one. *)
Definition below_brk (st : state) : Prop :=
  map_Forall (λ a _, (a < brk st)%positive) (heap st).

(** A well-formed registry state: the list head leads through the live nodes
    [l] to the null pointer. *)
Definition wf (st : state) (l : list (positive * positive)) : Prop :=
  chain (heap st) (callbacks st) l ∧ below_brk st.

Global Instance path_dec h p l q : Decision (path h p l q).
Proof.
  revert p. induction l as [|[a f] l IH]; intros p; simpl; [apply _|].
  destruct (h !! a) as [c|]; apply _.
Defined.

Global Instance wf_dec st l : Decision (wf st l).
Proof. unfold wf, chain, below_brk. apply _. Defined.

(** A registry that leads, through live nodes, to a node that has been
    freed. *)
Definition doomed (st : state) : Prop :=
  ∃ l d, path (heap st) (callbacks st) l (Some d) ∧ ends (heap st) (Some d).

(** The function references held by the registry [l], first entry first. *)
Definition funcs (l : list (positive * positive)) : list positive := l.*2.

(** The registry proper: the memory and the list head, without the
    bookkeeping of the model. *)
Definition registry (st : state) : gmap positive sudo_fatal_callback * ptr :=
  (heap st, callbacks st).

(** The nodes met when walking the list from [p] for as long as the pointer
    at hand is neither null nor dangling. *)
Fixpoint walk (n : nat) (h : gmap positive sudo_fatal_callback) (p : ptr)
    : list (positive * positive) :=
  match n, p with
  | S n', Some a =>
    match h !! a with
    | Some c => (a, func c) :: walk n' h (entries c)
    | None => []
    end
  | _, _ => []
  end.

Definition entries_of (st : state) : list (positive * positive) :=
  walk (size (heap st)) (heap st) (callbacks st).

(** At most one entry per function reference. *)
Definition no_duplicates (st : state) : Prop := NoDup (funcs (entries_of st)).

(** ** States the registry functions lead to *)

(** After a successful registration of [f]. *)
Definition registered (f : positive) (st : state) : state :=
  State (<[brk st := Callback (callbacks st) f]> (heap st))
        (Pos.succ (brk st)) (Some (brk st)) (S (mallocs st))
        (log st ++ [EvReg (brk st) f]).

(** After a registration that found no memory. *)
Definition refused (st : state) : state :=
  State (heap st) (brk st) (callbacks st) (S (mallocs st)) (log st).

(** After the first node [a], whose link is [nx], has been taken off the
    list and freed by the deregister function. *)
Definition unlinked_first (a f : positive) (nx : ptr) (st : state) : state :=
  State (delete a (heap st)) (brk st) nx (mallocs st)
        (log st ++ [EvDereg a f]).

(** After the deregister function has freed the node [a] without taking it
    off the list. *)
Definition freed_in_place (a f : positive) (st : state) : state :=
  State (delete a (heap st)) (brk st) (callbacks st) (mallocs st)
        (log st ++ [EvDereg a f]).

(** ** Callbacks *)

(** A callback body that never calls the deregister function (the register
    function returns 0 or -1, so these two continuations are all there is). *)
Fixpoint no_deregister (b : body) : bool :=
  match b with
  | Done => true
  | CallRegister _ k => no_deregister (k 0%Z) && no_deregister (k (-1)%Z)
  | CallDeregister _ _ => false
  end.

(** The functions a body may register. *)
Fixpoint registers (b : body) : list positive :=
  match b with
  | Done => []
  | CallRegister f k => f :: registers (k 0%Z) ++ registers (k (-1)%Z)
  | CallDeregister _ k => registers (k 0%Z) ++ registers (k (-1)%Z)
  end.

(** [settles n f]: the registrations that the callback [f] sets off come to
    an end within [n] generations: every callback that [f] may register
    settles within [n - 1], and nothing settles within 0.  A callback that
    registers nothing settles within 1. *)
Fixpoint settles {P : Process} (n : nat) (f : positive) : bool :=
  match n with
  | O => false
  | S n' => forallb (settles n') (registers (prog f))
  end.

(** Registering the functions [fs] one after the other. *)
Fixpoint register_all {P : Process} (fs : list positive) : M unit :=
  match fs with
  | [] => mret tt
  | f :: fs' => sudo_fatal_callback_register f;; register_all fs'
  end.

(** Deregistering the functions [fs] one after the other. *)
Fixpoint deregister_all (fs : list positive) : M unit :=
  match fs with
  | [] => mret tt
  | f :: fs' => sudo_fatal_callback_deregister f;; deregister_all fs'
  end.

(** The states a process can be in when its calls of the deregister function
    keep to the discipline of a stack: it starts with an empty registry; it
    registers what it likes; it deregisters only a function that is not
    registered or the one held by the first entry; it warns; it runs drains
    that return. *)
Inductive reachable {P : Process} {H : Host} : state → Prop :=
| reachable_start : reachable initial_state
| reachable_register st f st' r :
    reachable st →
    sudo_fatal_callback_register f st = Return st' r →
    reachable st'
| reachable_deregister st f st' r :
    reachable st →
    f ∉ funcs (entries_of st) ∨ head (funcs (entries_of st)) = Some f →
    sudo_fatal_callback_deregister f st = Return st' r →
    reachable st'
| reachable_warn st e errno fmt ap st' :
    reachable st →
    call_warn e errno fmt ap st = Return st' tt →
    reachable st'
| reachable_drain st fuel st' :
    reachable st →
    do_cleanup fuel st = Return st' tt →
    reachable st'.

(** Only [exit] ends the process. *)
Definition never_exits {A} (m : M A) : Prop := ∀ st st' c, m st ≠ Exit st' c.

(** ** Events *)

(** The ghost events of the registrations that put the nodes [new] in front
    of the list (the first node of [new] was registered last). *)
Definition reg_events (new : list (positive * positive)) : list event :=
  (λ x, EvReg x.1 x.2) <$> reverse new.

(** How often the node [a] had its function [f] invoked in [evs]. *)
Definition calls (a f : positive) (evs : list event) : nat :=
  count_occ event_eq_dec evs (EvCall a f).

(** The functions invoked in [evs], in order. *)
Definition called (evs : list event) : list positive :=
  omap (λ e, match e with EvCall _ f => Some f | _ => None end) evs.

(** The lines printed in [evs], in order. *)
Definition printed (evs : list event) : list string :=
  omap (λ e, match e with EvPrintf _ s => Some s | _ => None end) evs.

(** The nodes with an address below [b] that had their function invoked in
    [evs], in the order of the invocations. *)
Definition calls_below (b : positive) (evs : list event)
    : list (positive * positive) :=
  omap (λ e, match e with
             | EvCall a f => if decide (a < b)%positive then Some (a, f) else None
             | _ => None
             end) evs.

(** What became of the entry (node [a], function [f]) in [evs]: its function
    was invoked exactly once and it was not deregistered, or it was
    deregistered and its function was never invoked. *)
Definition settled (a f : positive) (evs : list event) : Prop :=
  (calls a f evs = 1 ∧ EvDereg a f ∉ evs) ∨
  (calls a f evs = 0 ∧ EvDereg a f ∈ evs).

(** [grows st st' l new]: [st'] is [st] after some registrations that put
    the nodes [new] in front of the registry [l]; the blocks that existed in
    [st] are as they were. *)
Definition grows (st st' : state) (l new : list (positive * positive)) : Prop :=
  wf st' (new ++ l) ∧
  log st' = log st ++ reg_events new ∧
  (∀ a, (a < brk st)%positive → heap st' !! a = heap st !! a) ∧
  (brk st ≤ brk st')%positive ∧
  (∀ x, x ∈ new → (brk st ≤ x.1)%positive).

(** The invariant of a drain that started with the registry [l0] and the
    log [log0], when the registry is [l] and the events since the start are
    [evs]: the registry is well-formed; no node still on the list has been
    invoked or deregistered; every entry that was on the list at the start
    or was registered since is still on the list or settled; the nodes named
    in events have addresses malloc has handed out; nothing has been
    printed. *)
Definition drain_inv (log0 : list event) (l0 : list (positive * positive))
    (st : state) (l : list (positive * positive)) (evs : list event) : Prop :=
  wf st l ∧
  log st = log0 ++ evs ∧
  (∀ a f g, (a, f) ∈ l → (EvCall a g ∉ evs) ∧ (EvDereg a g ∉ evs)) ∧
  (∀ a f, (a, f) ∈ l0 ∨ EvReg a f ∈ evs → (a, f) ∈ l ∨ settled a f evs) ∧
  (∀ a f, EvCall a f ∈ evs ∨ EvDereg a f ∈ evs ∨ EvReg a f ∈ evs →
     (a < brk st)%positive) ∧
  printed evs = [].

(** What the memory holds at the address [x] once the registry [l0] of the
    state [st0] has been drained: nothing where a node of [l0] was, and what
    it held in [st0] anywhere else. *)
Definition swept (st0 : state) (l0 : list (positive * positive)) (x : positive)
    : option sudo_fatal_callback :=
  if decide (x ∈ l0.*1) then None else heap st0 !! x.

(** The entries of [l] that no event of [evs] deregisters. *)
Definition kept (evs : list event) (l : list (positive * positive))
    : list (positive * positive) :=
  filter (λ x, EvDereg x.1 x.2 ∉ evs) l.

(** The invariant of the drain that started in the state [st0] with the
    registry [l0], as to order and memory.  The registry [l] is made of nodes
    allocated since the start, [new], in front of a tail [old] of [l0]; of the
    nodes of [l0] in front of that tail, [gone], those not deregistered have
    been invoked, in the order of the list, and no other node of [l0] has;
    away from the list and from the nodes [ex] (that of the callback that is
    running), the memory is swept. *)
Definition drain_order (st0 : state) (l0 : list (positive * positive))
    (st : state) (l : list (positive * positive)) (ex : list positive)
    (evs : list event) : Prop :=
  ∃ gone new old,
    l0 = gone ++ old ∧ l = new ++ old ∧
    (∀ x, x ∈ new → (brk st0 ≤ x.1)%positive) ∧
    calls_below (brk st0) evs = kept evs gone ∧
    (∀ x, x ∉ l.*1 → x ∉ ex → heap st !! x = swept st0 l0 x) ∧
    (∀ x, x ∈ ex → x ∈ l0.*1 ∨ (brk st0 ≤ x)%positive) ∧
    (brk st0 ≤ brk st)%positive.

(** ** Tactics *)

(** Unfolding the memory operations and list macros down to lookups. *)
Ltac run_prims :=
  unfold SLIST_REMOVE_AFTER, SLIST_REMOVE_HEAD, SLIST_INSERT_HEAD, SLIST_NEXT,
    SLIST_FIRST, set_next, set_func, emit, modify, get, free, store, load,
    mbind, M_bind, mret, M_ret;
  simpl.

(** * Scenarios *)

(** An allocator that always finds memory. *)
Definition always_memory : nat → bool := λ _, true.

(** Programs: one whose callbacks leave the registry alone; one in which the
    function 4 deregisters the function 2; one in which 2 deregisters 1; one
    in which 3 registers 4; one in which 3 registers 4 and deregisters it
    again; one in which 1 registers itself again. *)
Definition idle : Process :=
  {| malloc_ok := always_memory; prog := λ _, Done |}.

Definition four_deregisters_two : Process :=
  {| malloc_ok := always_memory;
     prog := λ f, if decide (f = 4%positive)
                  then CallDeregister 2%positive (λ _, Done) else Done |}.

Definition two_deregisters_one : Process :=
  {| malloc_ok := always_memory;
     prog := λ f, if decide (f = 2%positive)
                  then CallDeregister 1%positive (λ _, Done) else Done |}.

Definition three_registers_four : Process :=
  {| malloc_ok := always_memory;
     prog := λ f, if decide (f = 3%positive)
                  then CallRegister 4%positive (λ _, Done) else Done |}.

Definition three_registers_and_drops_four : Process :=
  {| malloc_ok := always_memory;
     prog := λ f, if decide (f = 3%positive)
                  then CallRegister 4%positive
                         (λ _, CallDeregister 4%positive (λ _, Done))
                  else Done |}.

Definition one_registers_itself : Process :=
  {| malloc_ok := always_memory;
     prog := λ f, if decide (f = 1%positive)
                  then CallRegister 1%positive (λ _, Done) else Done |}.

(** A process in which malloc finds no memory. *)
Definition starved : Process :=
  {| malloc_ok := λ _, false; prog := λ _, Done |}.

(** Collaborators for the dispatcher: error descriptions, and two hosts, one
    whose formatter fills in the string directives of the template and one
    whose formatter always fails. *)
Definition describe (errnum : Z) : string :=
  if decide (errnum = 2%Z) then "No such file or directory" else "Unknown error".

Definition fill (fmt : option string) (ap : list string) : option string :=
  match fmt with
  | Some t => Some (vformat "(null)" t (Some <$> ap))
  | None => None
  end.

Definition plain_host : Host :=
  {| va_list := list string; sudo_evasprintf := fill; getprogname := "sudo";
     sudo_warn_strerror := describe; null_text := "(null)" |}.

Definition failing_host : Host :=
  {| va_list := list string; sudo_evasprintf := λ _ _, None;
     getprogname := "sudo"; sudo_warn_strerror := describe;
     null_text := "(null)" |}.

Definition state_of {A} (r : result A) : option state :=
  match r with
  | Return st _ => Some st
  | _ => None
  end.

(** The process after it has registered the functions [fs], in that order. *)
Definition after_registering (fs : list positive) : state :=
  default initial_state (state_of (register_all (P := idle) fs initial_state)).

(** The state in which a drain with the fuel [fuel] leaves the process. *)
Definition drained {P : Process} (fuel : nat) (st : state) : state :=
  default initial_state (state_of (do_cleanup fuel st)).

(** * Properties *)

Section THEORY.

Context {proc : Process} {host : Host}.

(** ** Reasoning about the monad *)

Lemma bind_Return {A B} (m : M A) (k : A → M B) st st' a :
  m st = Return st' a → (m ≫= k) st = k a st'.
Proof. intros E. unfold mbind, M_bind. by rewrite E. Qed.

Lemma bind_inv_Return {A B} (m : M A) (k : A → M B) st st' b :
  (m ≫= k) st = Return st' b →
  ∃ st1 a, m st = Return st1 a ∧ k a st1 = Return st' b.
Proof.
  unfold mbind, M_bind. destruct (m st) as [st1 a| | |]; try done.
  intros E. by exists st1, a.
Qed.

Lemma bind_assoc {A B C} (m : M A) (k1 : A → M B) (k2 : B → M C) st :
  ((m ≫= k1) ≫= k2) st = (m ≫= λ a, k1 a ≫= k2) st.
Proof. unfold mbind, M_bind. by destruct (m st). Qed.

(** ** Paths *)

Lemma path_nil h p q : path h p [] q ↔ p = q.
Proof. done. Qed.

Lemma path_cons h p a f l q :
  path h p ((a, f) :: l) q ↔
  p = Some a ∧ ∃ nx, h !! a = Some (Callback nx f) ∧ path h nx l q.
Proof.
  simpl. destruct (h !! a) as [[nx g]|] eqn:E; simpl; naive_solver.
Qed.

Arguments path : simpl never.

Lemma chain_nil h p : chain h p [] ↔ p = None.
Proof. apply path_nil. Qed.

Lemma chain_cons h p a f l :
  chain h p ((a, f) :: l) ↔
  p = Some a ∧ ∃ nx, h !! a = Some (Callback nx f) ∧ chain h nx l.
Proof. apply path_cons. Qed.

Lemma path_app h p l1 l2 q :
  path h p (l1 ++ l2) q ↔ ∃ r, path h p l1 r ∧ path h r l2 q.
Proof.
  revert p. induction l1 as [|[a f] l1 IH]; intros p.
  - rewrite app_nil_l. split; [intros Hp; by exists p|].
    by intros (r & -> & Hp).
  - rewrite <- app_comm_cons, path_cons. split.
    + intros (-> & nx & Ha & Hp). apply IH in Hp as (r & H1 & H2).
      exists r. rewrite path_cons. eauto 6.
    + intros (r & (-> & nx & Ha & H1)%path_cons & H2).
      split; [done|]. exists nx. split; [done|]. apply IH. eauto.
Qed.

Lemma path_inj h p l1 l2 q1 q2 :
  path h p l1 q1 → path h p l2 q2 → ends h q1 → ends h q2 →
  l1 = l2 ∧ q1 = q2.
Proof.
  revert p l2. induction l1 as [|[a f] l1 IH]; intros p [|[b g] l2].
  - rewrite !path_nil. by intros -> ->.
  - rewrite path_nil, path_cons. intros -> (-> & nx & Hb & _) Hq _.
    simpl in Hq. congruence.
  - rewrite path_nil, path_cons. intros (-> & nx & Ha & _) <- _ Hq.
    simpl in Hq. congruence.
  - rewrite !path_cons. intros (-> & nx & Ha & H1) ([= <-] & nx' & Ha' & H2) Hq1 Hq2.
    simplify_eq. destruct (IH _ _ H1 H2 Hq1 Hq2) as [-> ->]. done.
Qed.

Lemma path_live h p l q a : path h p l q → a ∈ l.*1 → is_Some (h !! a).
Proof.
  revert p. induction l as [|[b g] l IH]; intros p.
  - intros _ Ha. by apply elem_of_nil in Ha.
  - rewrite path_cons, fmap_cons.
    intros (-> & nx & Hb & Hc) [->|Ha]%elem_of_cons; eauto.
Qed.

(** The part of a path that starts at one of its nodes. *)
Lemma path_from h p l q a :
  path h p l q → a ∈ l.*1 →
  ∃ l1 f l2, l = l1 ++ (a, f) :: l2 ∧ path h (Some a) ((a, f) :: l2) q.
Proof.
  revert p. induction l as [|[b g] l IH]; intros p.
  - intros _ Ha. by apply elem_of_nil in Ha.
  - rewrite fmap_cons. intros Hp [->|Ha]%elem_of_cons.
    + exists [], g, l. split; [done|].
      apply path_cons in Hp as (-> & Hp). by apply path_cons.
    + apply path_cons in Hp as (-> & nx & Hb & Hp).
      destruct (IH _ Hp Ha) as (l1 & f & l2 & -> & H2).
      by exists ((b, g) :: l1), f, l2.
Qed.

Lemma path_NoDup h p l q : path h p l q → ends h q → NoDup l.*1.
Proof.
  revert p. induction l as [|[a f] l IH]; intros p.
  - constructor.
  - rewrite fmap_cons. intros Hp Hq. pose proof Hp as Hp'.
    apply path_cons in Hp as (-> & nx & Ha & Hl).
    constructor; [|eauto].
    intros Hin. destruct (path_from _ _ _ _ _ Hl Hin) as (l1 & g & l2 & -> & H2).
    destruct (path_inj _ _ _ _ _ _ Hp' H2 Hq Hq) as [E _].
    apply (f_equal length) in E. simpl in E. rewrite length_app in E.
    simpl in E. lia.
Qed.

Lemma path_length h p l q : path h p l q → ends h q → length l ≤ size h.
Proof.
  intros Hp Hq.
  assert (list_to_set (C := gset positive) l.*1 ⊆ dom h) as Hsub.
  { intros a Ha. apply elem_of_list_to_set in Ha. apply elem_of_dom.
    eauto using path_live. }
  apply subseteq_size in Hsub.
  rewrite size_list_to_set in Hsub by eauto using path_NoDup.
  rewrite length_fmap, size_dom in Hsub. done.
Qed.

(** A path only depends on the blocks it runs through. *)
Lemma path_frame h h' p l q :
  path h p l q → (∀ a, a ∈ l.*1 → h' !! a = h !! a) → path h' p l q.
Proof.
  revert p. induction l as [|[a f] l IH]; intros p.
  - by rewrite !path_nil.
  - rewrite !path_cons, fmap_cons. intros (-> & nx & Ha & Hc) Hf. split; [done|].
    exists nx. split.
    + rewrite Hf; [done|]. apply elem_of_cons; by left.
    + apply IH; [done|]. intros b Hb. apply Hf, elem_of_cons; by right.
Qed.

Lemma chain_NoDup h p l : chain h p l → NoDup l.*1.
Proof. intros Hc. by eapply path_NoDup. Qed.

Lemma chain_length h p l : chain h p l → length l ≤ size h.
Proof. intros Hc. by eapply path_length. Qed.

Lemma chain_live h p l a : chain h p l → a ∈ l.*1 → is_Some (h !! a).
Proof. apply path_live. Qed.

Lemma chain_frame h h' p l :
  chain h p l → (∀ a, a ∈ l.*1 → h' !! a = h !! a) → chain h' p l.
Proof. apply path_frame. Qed.

(** Splitting a registry at the first entry with a given address or a given
    function. *)
Lemma split_at_address (l : list (positive * positive)) a :
  a ∈ l.*1 → ∃ l1 f l2, l = l1 ++ (a, f) :: l2 ∧ a ∉ l1.*1.
Proof.
  intros (fs1 & fs2 & Hl & Hn)%list_elem_of_split_l.
  apply fmap_app_inv in Hl as (l1 & l2' & -> & Hl2 & ->).
  symmetry in Hl2. apply fmap_cons_inv in Hl2 as ([a' f] & l2 & Ha & -> & ->).
  simpl in Ha. subst a'. by exists l1, f, l2.
Qed.

Lemma split_at_function (l : list (positive * positive)) f :
  f ∈ funcs l → ∃ l1 a l2, l = l1 ++ (a, f) :: l2 ∧ f ∉ funcs l1.
Proof.
  intros (fs1 & fs2 & Hl & Hn)%list_elem_of_split_l.
  apply fmap_app_inv in Hl as (l1 & l2' & -> & Hl2 & ->).
  symmetry in Hl2. apply fmap_cons_inv in Hl2 as ([a f'] & l2 & Hf & -> & ->).
  simpl in Hf. subst f'. by exists l1, a, l2.
Qed.

(** ** The register function *)

(** The duplicate check on a path: it finds the function, or comes to the
    end of the list, or reads a freed node. *)
Lemma register_scan_path st p l q n f :
  path (heap st) p l q → ends (heap st) q → length l < n →
  register_scan n f p st =
    if bool_decide (f ∈ funcs l) then Return st true
    else match q with
         | None => Return st false
         | Some _ => Undefined
         end.
Proof.
  revert p n. induction l as [|[a g] l IH]; intros p n.
  - rewrite path_nil. intros -> Hq Hn.
    destruct n as [|n]; [simpl in Hn; lia|].
    rewrite bool_decide_eq_false_2 by apply not_elem_of_nil.
    destruct q as [d|]; [|done]. simpl in Hq.
    simpl. unfold mbind, M_bind, load. by rewrite Hq.
  - rewrite path_cons. intros (-> & nx & Ha & Hp) Hq Hn.
    destruct n as [|n]; [simpl in Hn; lia|]. simpl in Hn.
    simpl. unfold mbind, M_bind, load. rewrite Ha. simpl.
    destruct (decide (f = g)) as [->|Hne].
    + rewrite bool_decide_eq_true_2; [done|]. apply elem_of_cons; by left.
    + rewrite IH by (done || lia).
      assert (bool_decide (f ∈ funcs l) = bool_decide (f ∈ funcs ((a, g) :: l))) as ->.
      { apply bool_decide_ext. unfold funcs. rewrite fmap_cons, elem_of_cons.
        naive_solver. }
      done.
Qed.

Lemma wf_fresh st l : wf st l → heap st !! brk st = None.
Proof.
  intros [_ Hb]. destruct (heap st !! brk st) eqn:E; [|done].
  apply Hb in E. simpl in E. lia.
Qed.

Lemma register_duplicate st l f :
  wf st l → f ∈ funcs l →
  sudo_fatal_callback_register f st = Return st (-1)%Z.
Proof.
  intros [Hc _] Hf. unfold sudo_fatal_callback_register.
  unfold mbind, M_bind, get, SLIST_FIRST.
  rewrite (register_scan_path _ _ l None); [|done|done|].
  - by rewrite bool_decide_eq_true_2.
  - apply chain_length in Hc. lia.
Qed.

Lemma register_new st l f :
  wf st l → f ∉ funcs l → malloc_ok (mallocs st) = true →
  sudo_fatal_callback_register f st = Return (registered f st) 0%Z.
Proof.
  intros Hwf Hf Hm. pose proof (wf_fresh _ _ Hwf) as Hfresh.
  destruct Hwf as [Hc _]. unfold sudo_fatal_callback_register.
  unfold mbind at 1 2 3, M_bind, get, SLIST_FIRST.
  rewrite (register_scan_path _ _ l None); [|done|done|apply chain_length in Hc; lia].
  rewrite bool_decide_eq_false_2 by done.
  unfold mbind, M_bind, malloc. rewrite Hm.
  unfold set_func, SLIST_INSERT_HEAD, SLIST_FIRST, set_next, emit, modify.
  unfold mbind, M_bind, load, store. simpl.
  repeat (rewrite lookup_insert_eq; simpl).
  unfold mret, M_ret, registered, set_heap, set_callbacks, add_log. simpl.
  by rewrite !insert_insert_eq.
Qed.

Lemma register_no_memory st l f :
  wf st l → f ∉ funcs l → malloc_ok (mallocs st) = false →
  sudo_fatal_callback_register f st = Return (refused st) (-1)%Z.
Proof.
  intros [Hc _] Hf Hm. unfold sudo_fatal_callback_register.
  unfold mbind at 1 2 3, M_bind, get, SLIST_FIRST.
  rewrite (register_scan_path _ _ l None); [|done|done|apply chain_length in Hc; lia].
  rewrite bool_decide_eq_false_2 by done.
  unfold mbind, M_bind, malloc. by rewrite Hm.
Qed.

Lemma wf_registered st l f :
  wf st l → wf (registered f st) ((brk st, f) :: l).
Proof.
  intros Hwf. pose proof (wf_fresh _ _ Hwf) as Hfresh.
  destruct Hwf as [Hc Hb]. split; simpl.
  - apply chain_cons. split; [done|]. exists (callbacks st).
    rewrite lookup_insert_eq. split; [done|].
    apply (chain_frame (heap st)); [done|].
    intros a Ha. apply lookup_insert_ne. intros <-.
    destruct (chain_live _ _ _ _ Hc Ha) as [c Hc']. congruence.
  - apply map_Forall_insert_2; [simpl; lia|].
    eapply map_Forall_impl; [exact Hb|]. simpl. intros; lia.
Qed.

Lemma wf_refused st l : wf st l → wf (refused st) l.
Proof. by intros [Hc Hb]. Qed.

(** On a registry that leads to a freed node, the register function returns
    only when it finds a duplicate, and then changes nothing. *)
Lemma register_doomed st f st' r :
  doomed st → sudo_fatal_callback_register f st = Return st' r → st' = st.
Proof.
  intros (l & d & Hp & Hd). unfold sudo_fatal_callback_register.
  unfold mbind at 1 2 3, M_bind, get, SLIST_FIRST.
  rewrite (register_scan_path _ _ l (Some d)); [|done|done|].
  - destruct (bool_decide (f ∈ funcs l)); [|done]. by intros [= <- <-].
  - apply path_length in Hp; [lia|done].
Qed.

(** ** The deregister function *)

(** What the scan does once it stands on the node [a] that holds [f], having
    passed the nodes [l1]: the first node of the list is unlinked and freed;
    any other node is freed while its predecessor still points at it, after
    its own link has been replaced by that of its successor, which is read
    through the null pointer when the node is the last one. *)
Lemma deregister_scan_found st a f nx :
  heap st !! a = Some (Callback nx f) →
  ∀ l1 prev p n,
    deref prev st = Return st p →
    path (heap st) p l1 (Some a) →
    f ∉ funcs l1 → length l1 < n →
    deregister_scan n f prev st =
      if decide (callbacks st = Some a)
      then Return (unlinked_first a f nx st) 0%Z
      else match nx with
           | None => Undefined
           | Some b =>
             match heap st !! b with
             | Some _ => Return (freed_in_place a f st) 0%Z
             | None => Undefined
             end
           end.
Proof.
  intros Ha. induction l1 as [|[b g] l1 IH]; intros prev p n Hp Hc Hf Hn.
  - apply path_nil in Hc as ->.
    destruct n as [|n]; [simpl in Hn; lia|].
    simpl. rewrite (bind_Return _ _ _ _ _ Hp).
    unfold mbind at 1, M_bind, load. rewrite Ha. simpl.
    rewrite decide_True by done.
    unfold mbind at 1, M_bind, SLIST_FIRST.
    destruct (decide (Some a = callbacks st)) as [E|E].
    + rewrite decide_True by done. run_prims. rewrite <- E, Ha. simpl.
      by rewrite Ha.
    + rewrite decide_False by done.
      unfold mbind at 1, M_bind.
      rewrite (bind_Return _ _ _ _ _ Hp).
      run_prims. rewrite Ha. simpl.
      destruct nx as [b|]; [|done].
      destruct (heap st !! b) as [cb|] eqn:Hb; [|done].
      unfold set_heap. simpl.
      repeat (first [rewrite Ha | rewrite lookup_insert_eq]; simpl).
      unfold freed_in_place, add_log. simpl. by rewrite delete_insert_eq.
  - apply path_cons in Hc as (-> & nxb & Hb & Hc).
    unfold funcs in Hf. rewrite fmap_cons in Hf. simpl in Hf.
    apply not_elem_of_cons in Hf as [Hfg Hf].
    destruct n as [|n]; [simpl in Hn; lia|]. simpl in Hn.
    simpl. rewrite (bind_Return _ _ _ _ _ Hp).
    unfold mbind at 1, M_bind, load. rewrite Hb. simpl.
    rewrite decide_False by done.
    apply (IH (NextLink b) nxb); [|done|done|lia].
    simpl. unfold SLIST_NEXT, mbind, M_bind, load. by rewrite Hb.
Qed.

(** The scan for a function that no node holds comes to the end of the
    list. *)
Lemma deregister_scan_absent st f :
  ∀ l prev p q n,
    deref prev st = Return st p → path (heap st) p l q → ends (heap st) q →
    f ∉ funcs l → length l < n →
    deregister_scan n f prev st =
      match q with
      | None => Return st (-1)%Z
      | Some _ => Undefined
      end.
Proof.
  induction l as [|[b g] l IH]; intros prev p q n Hp Hc Hq Hf Hn.
  - apply path_nil in Hc as ->.
    destruct n as [|n]; [simpl in Hn; lia|].
    simpl. rewrite (bind_Return _ _ _ _ _ Hp).
    destruct q as [d|]; [|done]. simpl in Hq.
    unfold mbind, M_bind, load. by rewrite Hq.
  - apply path_cons in Hc as (-> & nxb & Hb & Hc).
    unfold funcs in Hf. rewrite fmap_cons in Hf. simpl in Hf.
    apply not_elem_of_cons in Hf as [Hfg Hf].
    destruct n as [|n]; [simpl in Hn; lia|]. simpl in Hn.
    simpl. rewrite (bind_Return _ _ _ _ _ Hp).
    unfold mbind at 1, M_bind, load. rewrite Hb. simpl.
    rewrite decide_False by done.
    apply (IH (NextLink b) nxb); [|done|done|done|lia].
    simpl. unfold SLIST_NEXT, mbind, M_bind, load. by rewrite Hb.
Qed.

Lemma deregister_absent st l f :
  wf st l → f ∉ funcs l →
  sudo_fatal_callback_deregister f st = Return st (-1)%Z.
Proof.
  intros [Hc _] Hf. unfold sudo_fatal_callback_deregister.
  unfold mbind, M_bind, get.
  rewrite (deregister_scan_absent st f l HeadLink (callbacks st) None); try done.
  apply chain_length in Hc. lia.
Qed.

Lemma deregister_first st a f l :
  wf st ((a, f) :: l) →
  ∃ nx, heap st !! a = Some (Callback nx f) ∧
    sudo_fatal_callback_deregister f st = Return (unlinked_first a f nx st) 0%Z ∧
    wf (unlinked_first a f nx st) l.
Proof.
  intros [Hc Hb]. pose proof (chain_NoDup _ _ _ Hc) as Hnd.
  apply chain_cons in Hc as (Hhd & nx & Ha & Hc).
  exists nx. split; [done|]. split.
  - unfold sudo_fatal_callback_deregister. unfold mbind, M_bind, get.
    rewrite (deregister_scan_found st a f nx Ha [] HeadLink (Some a)).
    + by rewrite decide_True.
    + simpl. unfold SLIST_FIRST. by rewrite Hhd.
    + by apply path_nil.
    + unfold funcs. simpl. apply not_elem_of_nil.
    + simpl. lia.
  - split; simpl.
    + apply (chain_frame (heap st)); [done|].
      intros b Hin. apply lookup_delete_ne. intros <-.
      rewrite fmap_cons in Hnd. apply NoDup_cons in Hnd as [Hnd _]. done.
    + apply map_Forall_delete. exact Hb.
Qed.

(** Deregistering a function whose node is not the first one: undefined when
    the node is the last one; otherwise the node is freed in place, and the
    registry is left leading to a freed node. *)
Lemma deregister_not_first st l1 a f l2 :
  wf st (l1 ++ (a, f) :: l2) → l1 ≠ [] → f ∉ funcs l1 →
  sudo_fatal_callback_deregister f st =
    match l2 with
    | [] => Undefined
    | _ :: _ => Return (freed_in_place a f st) 0%Z
    end ∧
  doomed (freed_in_place a f st).
Proof.
  intros [Hc Hb] Hne Hf. pose proof (chain_NoDup _ _ _ Hc) as Hnd.
  pose proof (chain_length _ _ _ Hc) as Hlen.
  pose proof Hc as Hc'.
  apply path_app in Hc' as (r & H1 & (-> & nx & Ha & H2)%path_cons).
  rewrite fmap_app, fmap_cons in Hnd. apply NoDup_app in Hnd as (_ & Hd & _).
  split.
  - unfold sudo_fatal_callback_deregister. unfold mbind, M_bind, get.
    rewrite (deregister_scan_found st a f nx Ha l1 HeadLink (callbacks st));
      [|done|done|done|rewrite length_app in Hlen; simpl in Hlen; lia].
    rewrite decide_False.
    + destruct l2 as [|[b g] l2].
      * by apply path_nil in H2 as ->.
      * apply path_cons in H2 as (-> & nxb & Hb' & _). by rewrite Hb'.
    + destruct l1 as [|[b g] l1]; [done|].
      apply path_cons in H1 as (-> & _). intros [= ->].
      apply (Hd a); [rewrite fmap_cons|]; apply elem_of_cons; by left.
  - exists l1, a. split; simpl; [|apply lookup_delete_eq].
    apply (path_frame (heap st)); [done|].
    intros b Hin. apply lookup_delete_ne. intros <-.
    apply (Hd a Hin). apply elem_of_cons. by left.
Qed.

(** Freeing a block leaves a registry that leads to a freed node in that
    condition. *)
Lemma doomed_delete st a :
  doomed st → doomed (set_heap (delete a (heap st)) st).
Proof.
  intros (l & d & Hp & Hd).
  pose proof (path_NoDup _ _ _ _ Hp Hd) as Hnd.
  destruct (decide (a ∈ l.*1)) as [Hin|Hnin].
  - destruct (split_at_address l a Hin) as (l1 & f & l2 & -> & Hn1).
    apply path_app in Hp as (r & H1 & (-> & _)%path_cons).
    exists l1, a. split; simpl; [|apply lookup_delete_eq].
    apply (path_frame (heap st)); [done|].
    intros b Hb. apply lookup_delete_ne. by intros <-.
  - exists l, d. split; simpl.
    + apply (path_frame (heap st)); [done|].
      intros b Hb. apply lookup_delete_ne. by intros <-.
    + simpl in Hd. by apply lookup_delete_None; right.
Qed.

(** On a registry that leads to a freed node, a call of the deregister
    function that returns leaves such a registry. *)
Lemma deregister_doomed st f st' r :
  doomed st → sudo_fatal_callback_deregister f st = Return st' r → doomed st'.
Proof.
  intros (l & d & Hp & Hd).
  pose proof (path_NoDup _ _ _ _ Hp Hd) as Hnd.
  pose proof (path_length _ _ _ _ Hp Hd) as Hlen.
  unfold sudo_fatal_callback_deregister. unfold mbind, M_bind, get.
  destruct (decide (f ∈ funcs l)) as [Hin|Hnin].
  - destruct (split_at_function l f Hin) as (l1 & a & l2 & -> & Hn1).
    pose proof Hp as Hp'.
    apply path_app in Hp' as (r0 & H1 & (-> & nx & Ha & H2)%path_cons).
    rewrite fmap_app, fmap_cons in Hnd.
    pose proof Hnd as Hnd'. apply NoDup_app in Hnd' as (_ & Hd1 & Hd2).
    apply NoDup_cons in Hd2 as [Hd2 _].
    rewrite (deregister_scan_found st a f nx Ha l1 HeadLink (callbacks st));
      [|done|done|done|rewrite length_app in Hlen; simpl in Hlen; lia].
    destruct (decide (callbacks st = Some a)) as [E|E].
    + intros [= <- <-].
      assert (l1 = []) as ->.
      { destruct l1 as [|[b g] l1]; [done|]. exfalso.
        apply path_cons in H1 as (E' & _). rewrite E in E'. injection E' as <-.
        apply (Hd1 a); [rewrite fmap_cons|]; apply elem_of_cons; by left. }
      exists l2, d. split; simpl.
      * apply (path_frame (heap st)); [done|].
        intros b Hb. apply lookup_delete_ne. by intros <-.
      * simpl in Hd. by apply lookup_delete_None; right.
    + destruct nx as [b|]; [|done].
      destruct (heap st !! b); [|done]. intros [= <- <-].
      exists l1, a. split; simpl; [|apply lookup_delete_eq].
      apply (path_frame (heap st)); [done|].
      intros c Hc. apply lookup_delete_ne. intros <-.
      apply (Hd1 a Hc). apply elem_of_cons. by left.
  - rewrite (deregister_scan_absent st f l HeadLink (callbacks st) (Some d));
      [done|done|done|done|done|lia].
Qed.

(** ** Callbacks that only register *)

Lemma grows_refl st l : wf st l → grows st st l [].
Proof.
  intros Hwf. split; [done|]. split.
  { unfold reg_events. simpl. by rewrite app_nil_r. }
  split; [done|]. split; [lia|].
  intros x Hx. by apply elem_of_nil in Hx.
Qed.

Lemma grows_trans st st1 st2 l new1 new2 :
  grows st st1 l new1 → grows st1 st2 (new1 ++ l) new2 →
  grows st st2 l (new2 ++ new1).
Proof.
  intros (Hw1 & Hl1 & Hh1 & Hb1 & Hn1) (Hw2 & Hl2 & Hh2 & Hb2 & Hn2).
  split; [by rewrite <- app_assoc|]. split.
  { rewrite Hl2, Hl1. unfold reg_events.
    by rewrite reverse_app, fmap_app, app_assoc. }
  split.
  { intros a Ha. rewrite Hh2 by lia. by apply Hh1. }
  split; [lia|].
  intros x [Hx|Hx]%elem_of_app.
  - apply Hn2 in Hx. lia.
  - by apply Hn1.
Qed.

Lemma register_grows st l f :
  wf st l →
  ∃ st' r new,
    sudo_fatal_callback_register f st = Return st' r ∧
    (r = 0%Z ∨ r = (-1)%Z) ∧
    grows st st' l new ∧
    (∀ x, x ∈ new → x.2 = f).
Proof.
  intros Hwf. destruct (decide (f ∈ funcs l)) as [Hin|Hnin].
  - exists st, (-1)%Z, []. split; [by eapply register_duplicate|].
    split; [by right|]. split; [by apply grows_refl|].
    intros x Hx. by apply elem_of_nil in Hx.
  - destruct (malloc_ok (mallocs st)) eqn:Hm.
    + exists (registered f st), 0%Z, [(brk st, f)].
      split; [by eapply register_new|]. split; [by left|]. split.
      * split; [by apply wf_registered|]. split; [done|]. split.
        { intros a Ha. simpl. apply lookup_insert_ne. lia. }
        split; [simpl; lia|].
        intros x ->%list_elem_of_singleton. simpl. lia.
      * by intros x ->%list_elem_of_singleton.
    + exists (refused st), (-1)%Z, [].
      split; [by eapply register_no_memory|]. split; [by right|]. split.
      * split; [by apply wf_refused|]. split.
        { unfold reg_events. simpl. by rewrite app_nil_r. }
        split; [done|]. split; [simpl; lia|].
        intros x Hx. by apply elem_of_nil in Hx.
      * intros x Hx. by apply elem_of_nil in Hx.
Qed.

Lemma run_body_grows b :
  no_deregister b = true →
  ∀ st l, wf st l →
  ∃ st' new,
    run_body b st = Return st' tt ∧
    grows st st' l new ∧
    (∀ x, x ∈ new → x.2 ∈ registers b).
Proof.
  induction b as [|f k IH|f k IH]; intros Hb st l Hwf.
  - exists st, []. split; [done|]. split; [by apply grows_refl|].
    intros x Hx. by apply elem_of_nil in Hx.
  - simpl in Hb. apply andb_prop in Hb as [Hb0 Hb1].
    destruct (register_grows st l f Hwf) as (st1 & r & new1 & Hr & Hr01 & Hg1 & Hf1).
    assert (no_deregister (k r) = true) as Hbr by (by destruct Hr01 as [->| ->]).
    destruct (IH r Hbr st1 (new1 ++ l)) as (st2 & new2 & Hrun & Hg2 & Hf2).
    { apply Hg1. }
    exists st2, (new2 ++ new1). split.
    { simpl. by rewrite (bind_Return _ _ _ _ _ Hr). }
    split; [by eapply grows_trans|].
    intros x [Hx|Hx]%elem_of_app; simpl.
    + apply elem_of_cons. right. apply elem_of_app.
      apply Hf2 in Hx. by destruct Hr01 as [->| ->]; [left|right].
    + apply elem_of_cons. left. by apply Hf1.
  - done.
Qed.

(** ** The drain loop *)

Lemma do_cleanup_empty st fuel :
  callbacks st = None → do_cleanup (S fuel) st = Return st tt.
Proof. intros H. simpl. unfold mbind, M_bind, SLIST_FIRST. by rewrite H. Qed.

(** One turn of the loop on a well-formed registry: the first node is taken
    off the list, then its function runs, then the node is freed. *)
Lemma do_cleanup_turn st a f l fuel :
  wf st ((a, f) :: l) →
  ∃ nx, heap st !! a = Some (Callback nx f) ∧
    wf (add_log (EvCall a f) (set_callbacks nx st)) l ∧
    do_cleanup (S fuel) st =
      (run_body (prog f);; free (Some a);; do_cleanup fuel)
        (add_log (EvCall a f) (set_callbacks nx st)).
Proof.
  intros [Hc Hb]. apply chain_cons in Hc as (Hhd & nx & Ha & Hc).
  exists nx. split; [done|]. split; [by split|].
  simpl. unfold invoke. run_prims.
  by repeat (first [rewrite Hhd | rewrite Ha]; simpl).
Qed.

(** The same turn when the callback does not deregister: it ends in a
    well-formed registry again, with the newly registered nodes in front. *)
Lemma do_cleanup_step st a f l :
  no_deregister (prog f) = true →
  wf st ((a, f) :: l) →
  ∃ st' new,
    (∀ fuel, do_cleanup (S fuel) st = do_cleanup fuel st') ∧
    wf st' (new ++ l) ∧
    log st' = log st ++ EvCall a f :: reg_events new ∧
    (brk st ≤ brk st')%positive ∧
    (∀ x, x ∈ new → (brk st ≤ x.1)%positive ∧ x.2 ∈ registers (prog f)).
Proof.
  intros Hnd Hwf. pose proof Hwf as [Hc Hb].
  pose proof (chain_NoDup _ _ _ Hc) as Hdup.
  rewrite fmap_cons in Hdup. apply NoDup_cons in Hdup as [Hdup _].
  destruct (do_cleanup_turn st a f l 0 Hwf) as (nx & Ha & Hwf1 & _).
  destruct (run_body_grows _ Hnd _ _ Hwf1)
    as (st2 & new & Hrun & (Hwf2 & Hlog & Hframe & Hbrk & Hnew) & Hreg).
  assert ((a < brk st)%positive) as Hlt by (by apply Hb in Ha).
  assert (heap st2 !! a = Some (Callback nx f)) as Ha2.
  { rewrite Hframe; [done|]. exact Hlt. }
  exists (set_heap (delete a (heap st2)) st2), new. split; [|split; [|split; [|split]]].
  - intros fuel.
    destruct (do_cleanup_turn st a f l fuel Hwf) as (nx' & Ha' & _ & ->).
    assert (nx' = nx) as -> by congruence.
    rewrite (bind_Return _ _ _ _ _ Hrun).
    unfold mbind at 1, M_bind, free. by rewrite Ha2.
  - destruct Hwf2 as [Hc2 Hb2]. split; simpl.
    + apply (chain_frame (heap st2)); [done|].
      intros b Hin. apply lookup_delete_ne. intros <-.
      rewrite fmap_app in Hin. apply elem_of_app in Hin as [Hin|Hin]; [|done].
      apply list_elem_of_fmap in Hin as (x & -> & Hx).
      apply Hnew in Hx. simpl in Hx. lia.
    + apply map_Forall_delete. exact Hb2.
  - simpl. rewrite Hlog. simpl. by rewrite <- app_assoc.
  - exact Hbrk.
  - intros x Hx. split; [by apply Hnew in Hx|by apply Hreg].
Qed.

Lemma calls_reg_events a f new : calls a f (reg_events new) = 0.
Proof.
  unfold calls. apply count_occ_not_In. rewrite <- list_elem_of_In.
  unfold reg_events. intros (x & Hx & _)%list_elem_of_fmap. done.
Qed.

Lemma calls_zero a f evs : EvCall a f ∉ evs → calls a f evs = 0.
Proof. rewrite list_elem_of_In. apply count_occ_not_In. Qed.

Lemma calls_pos a f evs : 0 < calls a f evs → EvCall a f ∈ evs.
Proof. rewrite list_elem_of_In. apply count_occ_In. Qed.

Lemma printed_reg_events new : printed (reg_events new) = [].
Proof.
  unfold reg_events. induction (reverse new) as [|x l IH]; [done|].
  rewrite fmap_cons. exact IH.
Qed.

Lemma printed_app evs1 evs2 : printed (evs1 ++ evs2) = printed evs1 ++ printed evs2.
Proof. apply omap_app. Qed.

Lemma called_app evs1 evs2 : called (evs1 ++ evs2) = called evs1 ++ called evs2.
Proof. apply omap_app. Qed.

(** What a completed drain has done when no callback deregisters: the list is
    empty, every node that was on it at the start has had its function
    invoked exactly once, every other invocation is that of a node allocated
    during the drain, every node registered during the drain has been
    invoked, and nothing has been printed. *)
Lemma do_cleanup_register_only :
  (∀ f, no_deregister (prog f) = true) →
  ∀ fuel st l st',
    wf st l → do_cleanup fuel st = Return st' tt →
    callbacks st' = None ∧
    ∃ evs, log st' = log st ++ evs ∧
      (∀ a f, (a, f) ∈ l → calls a f evs = 1) ∧
      (∀ a f, EvCall a f ∈ evs → (a, f) ∈ l ∨ (brk st ≤ a)%positive) ∧
      (∀ a f, EvReg a f ∈ evs → (brk st ≤ a)%positive ∧ EvCall a f ∈ evs) ∧
      printed evs = [].
Proof.
  intros Hnd. induction fuel as [|fuel IH]; intros st l st' Hwf Hrun; [done|].
  destruct l as [|[a f] l].
  - destruct Hwf as [Hc _]. apply chain_nil in Hc.
    rewrite do_cleanup_empty in Hrun by done. injection Hrun as <-.
    split; [done|]. exists []. rewrite app_nil_r. split; [done|].
    split; [intros a f H; by apply elem_of_nil in H|].
    split; [intros a f H; by apply elem_of_nil in H|].
    split; [intros a f H; by apply elem_of_nil in H|done].
  - pose proof Hwf as [Hc Hb].
    pose proof (chain_NoDup _ _ _ Hc) as Hdup.
    rewrite fmap_cons in Hdup. apply NoDup_cons in Hdup as [Hal _].
    assert ((a < brk st)%positive) as Halt.
    { apply chain_cons in Hc as (_ & nx & Ha & _). by apply Hb in Ha. }
    destruct (do_cleanup_step st a f l (Hnd f) Hwf)
      as (st1 & new & Hstep & Hwf1 & Hlog1 & Hbrk1 & Hnew).
    rewrite Hstep in Hrun.
    destruct (IH _ _ _ Hwf1 Hrun) as (Hhd & evs & Hlog & Hone & Hwho & Hreg & Hpr).
    split; [done|]. exists (EvCall a f :: reg_events new ++ evs).
    assert (∀ b g, (b, g) ∈ l → b ∈ l.*1) as Hfst.
    { intros b g H. apply list_elem_of_fmap. by exists (b, g). }
    assert (EvCall a f ∉ evs) as Hnot.
    { intros [H|H]%Hwho; [|lia].
      apply elem_of_app in H as [H|H]; [apply Hnew in H; simpl in H; lia|].
      by apply Hfst in H. }
    split; [|split; [|split; [|split]]].
    + rewrite Hlog, Hlog1, <- app_assoc. done.
    + intros b g [[= -> ->]|Hin]%elem_of_cons.
      * unfold calls. rewrite count_occ_cons_eq by done. f_equal.
        rewrite count_occ_app. fold (calls a f (reg_events new)).
        fold (calls a f evs). by rewrite calls_reg_events, calls_zero.
      * unfold calls. rewrite count_occ_cons_neq.
        2:{ intros [= -> ->]. by apply Hfst in Hin. }
        rewrite count_occ_app. fold (calls b g (reg_events new)).
        fold (calls b g evs). rewrite calls_reg_events. simpl.
        apply Hone. apply elem_of_app. by right.
    + intros b g [[= -> ->]|H]%elem_of_cons.
      { left. apply elem_of_cons. by left. }
      apply elem_of_app in H as [H|H].
      { unfold reg_events in H. by apply list_elem_of_fmap in H as (x & Hx & _). }
      apply Hwho in H as [H|H]; [|right; lia].
      apply elem_of_app in H as [H|H].
      * right. apply Hnew in H. simpl in H. lia.
      * left. apply elem_of_cons. by right.
    + intros b g [[=]|H]%elem_of_cons.
      apply elem_of_app in H as [H|H].
      * unfold reg_events in H.
        apply list_elem_of_fmap in H as ([b' g'] & [= -> ->] & Hx).
        rewrite elem_of_reverse in Hx. split.
        { apply Hnew in Hx. simpl in Hx. lia. }
        apply elem_of_cons. right. apply elem_of_app. right.
        apply calls_pos. rewrite (Hone b' g'); [lia|].
        apply elem_of_app. by left.
      * apply Hreg in H as [H1 H2]. split; [lia|].
        apply elem_of_cons. right. apply elem_of_app. by right.
    + change (printed (reg_events new ++ evs) = []).
      by rewrite printed_app, printed_reg_events, Hpr.
Qed.

(** Draining a front part of the list whose callbacks all settle: after some
    number of turns exactly the rest of the list is left. *)
Lemma do_cleanup_drains :
  (∀ f, no_deregister (prog f) = true) →
  ∀ n l1, Forall (λ x, settles n x.2 = true) l1 →
  ∀ st l2, wf st (l1 ++ l2) →
  ∃ k st', (∀ fuel, do_cleanup (k + fuel) st = do_cleanup fuel st') ∧
    wf st' l2 ∧ (brk st ≤ brk st')%positive.
Proof.
  intros Hnd. induction n as [|n IHn]; intros l1 Hs.
  - destruct l1 as [|x l1]; [|by apply Forall_cons in Hs as [? _]].
    intros st l2 Hwf. exists 0, st. split; [done|]. split; [done|lia].
  - induction l1 as [|[a f] l1 IHl]; intros st l2 Hwf.
    + exists 0, st. split; [done|]. split; [done|lia].
    + apply Forall_cons in Hs as [Hf Hs]. simpl in Hf.
      destruct (do_cleanup_step st a f (l1 ++ l2) (Hnd f) Hwf)
        as (st1 & new & Hstep & Hwf1 & _ & Hb1 & Hnew).
      destruct (IHn new) with (st := st1) (l2 := l1 ++ l2)
        as (k1 & st2 & Hk1 & Hwf2 & Hb2); [|done|].
      { apply Forall_forall. intros x Hx. apply Hnew in Hx as [_ Hx].
        rewrite forallb_forall in Hf. apply Hf. by apply list_elem_of_In. }
      destruct (IHl Hs st2 l2 Hwf2) as (k2 & st3 & Hk2 & Hwf3 & Hb3).
      exists (S (k1 + k2)), st3. split; [|split; [done|lia]].
      intros fuel. rewrite <- Hk2, <- Hk1, <- Hstep. f_equal. lia.
Qed.

Lemma do_cleanup_terminates n st l :
  (∀ f, no_deregister (prog f) = true) →
  wf st l → Forall (λ x, settles n x.2 = true) l →
  ∃ fuel st', do_cleanup fuel st = Return st' tt.
Proof.
  intros Hnd Hwf Hs.
  destruct (do_cleanup_drains Hnd n l Hs st []) as (k & st' & Hk & [Hc _] & _).
  { by rewrite app_nil_r. }
  exists (k + 1), st'. rewrite Hk. apply do_cleanup_empty. by apply chain_nil in Hc.
Qed.

(** A callback that registers itself again keeps the loop going for ever. *)
Lemma do_cleanup_reregister f k :
  (∀ n, malloc_ok n = true) →
  prog f = CallRegister f k → k 0%Z = Done →
  ∀ fuel st a l,
    wf st ((a, f) :: l) → f ∉ funcs l →
    do_cleanup fuel st = OutOfFuel.
Proof.
  intros Hm Hf Hk. induction fuel as [|fuel IH]; intros st a l Hwf Hnin; [done|].
  pose proof Hwf as [Hc Hb].
  pose proof (chain_NoDup _ _ _ Hc) as Hdup.
  rewrite fmap_cons in Hdup. apply NoDup_cons in Hdup as [Hal _].
  destruct (do_cleanup_turn st a f l fuel Hwf) as (nx & Ha & Hwf1 & ->).
  assert ((a < brk st)%positive) as Halt by (by apply Hb in Ha).
  set (st1 := add_log (EvCall a f) (set_callbacks nx st)) in *.
  rewrite Hf. simpl.
  rewrite (bind_Return _ _ _ (registered f st1) tt).
  2:{ rewrite (bind_Return _ _ _ (registered f st1) 0%Z).
      - by rewrite Hk.
      - by apply (register_new st1 l). }
  assert (heap (registered f st1) !! a = Some (Callback nx f)) as Ha1.
  { simpl. rewrite lookup_insert_ne by lia. done. }
  unfold mbind at 1, M_bind, free. rewrite Ha1.
  apply (IH _ (brk st1) l); [|done].
  destruct (wf_registered st1 l f Hwf1) as [Hc2 Hb2]. split.
  - apply (chain_frame (heap (registered f st1))); [done|].
    intros b Hin. apply lookup_delete_ne. intros <-.
    rewrite fmap_cons in Hin. apply elem_of_cons in Hin as [Hin|Hin]; [|done].
    simpl in Hin. subst st1. simpl in Halt. lia.
  - apply map_Forall_delete. exact Hb2.
Qed.

(** One turn of the loop, given what the callback of the first node does
    when it only registers. *)
Lemma do_cleanup_step_run st a f l nx st2 new :
  wf st ((a, f) :: l) → heap st !! a = Some (Callback nx f) →
  run_body (prog f) (add_log (EvCall a f) (set_callbacks nx st))
    = Return st2 tt →
  grows (add_log (EvCall a f) (set_callbacks nx st)) st2 l new →
  (∀ fuel, do_cleanup (S fuel) st
           = do_cleanup fuel (set_heap (delete a (heap st2)) st2)) ∧
  wf (set_heap (delete a (heap st2)) st2) (new ++ l).
Proof.
  intros Hwf Ha Hrun (Hwf2 & Hlog & Hframe & Hbrk & Hnew).
  pose proof Hwf as [Hc Hb].
  pose proof (chain_NoDup _ _ _ Hc) as Hdup.
  rewrite fmap_cons in Hdup. apply NoDup_cons in Hdup as [Hdup _].
  assert ((a < brk st)%positive) as Hlt by (by apply Hb in Ha).
  assert (heap st2 !! a = Some (Callback nx f)) as Ha2.
  { rewrite Hframe; [done|]. exact Hlt. }
  split.
  - intros fuel.
    destruct (do_cleanup_turn st a f l fuel Hwf) as (nx' & Ha' & _ & ->).
    assert (nx' = nx) as -> by congruence.
    rewrite (bind_Return _ _ _ _ _ Hrun).
    unfold mbind at 1, M_bind, free. by rewrite Ha2.
  - destruct Hwf2 as [Hc2 Hb2]. split; simpl.
    + apply (chain_frame (heap st2)); [done|].
      intros b Hin. apply lookup_delete_ne. intros <-.
      rewrite fmap_app in Hin. apply elem_of_app in Hin as [Hin|Hin]; [|done].
      apply list_elem_of_fmap in Hin as (x & -> & Hx).
      apply Hnew in Hx. simpl in Hx. lia.
    + apply map_Forall_delete. exact Hb2.
Qed.

(** A registry that holds a callback whose first act is to register itself:
    when no callback deregisters and malloc always finds memory, that
    function is on the list at the start of every turn, so that the loop never
    comes to an end. *)
Lemma do_cleanup_self_registering f k :
  (∀ g, no_deregister (prog g) = true) → (∀ n, malloc_ok n = true) →
  prog f = CallRegister f k →
  ∀ fuel st l, wf st l → f ∈ funcs l → do_cleanup fuel st = OutOfFuel.
Proof.
  intros Hnd Hm Hf. induction fuel as [|fuel IH]; intros st l Hwf Hin; [done|].
  destruct l as [|[a g] l]; [by apply elem_of_nil in Hin|].
  destruct (decide (f ∈ funcs l)) as [Hl|Hl].
  - destruct (do_cleanup_step st a g l (Hnd g) Hwf)
      as (st1 & new & Hstep & Hwf1 & _).
    rewrite Hstep. apply (IH st1 (new ++ l)); [done|].
    unfold funcs. rewrite fmap_app. apply elem_of_app. by right.
  - assert (g = f) as ->.
    { unfold funcs in Hin. rewrite fmap_cons in Hin.
      apply elem_of_cons in Hin as [->|Hin]; done. }
    destruct (do_cleanup_turn st a f l 0 Hwf) as (nx & Ha & Hwf1 & _).
    set (st1 := add_log (EvCall a f) (set_callbacks nx st)) in *.
    pose proof (register_new st1 l f Hwf1 Hl (Hm _)) as Hreg.
    pose proof (wf_registered st1 l f Hwf1) as Hwfr.
    assert (no_deregister (k 0%Z) = true) as Hk.
    { specialize (Hnd f). rewrite Hf in Hnd. simpl in Hnd.
      by apply andb_prop in Hnd as [Hnd _]. }
    destruct (run_body_grows _ Hk _ _ Hwfr) as (st2 & new & Hrun & Hg & _).
    assert (grows st1 (registered f st1) l [(brk st1, f)]) as Hg1.
    { split; [done|]. split; [done|]. split.
      { intros b Hb. simpl. apply lookup_insert_ne. simpl in Hb. lia. }
      split; [simpl; lia|].
      intros x ->%list_elem_of_singleton. simpl. lia. }
    pose proof (grows_trans _ _ _ _ _ _ Hg1 Hg) as Hg2.
    destruct (do_cleanup_step_run st a f l nx st2 (new ++ [(brk st1, f)]))
      as [Hstep Hwf2]; [done|done| |done|].
    { fold st1. rewrite Hf. simpl. by rewrite (bind_Return _ _ _ _ _ Hreg). }
    rewrite Hstep. apply (IH _ ((new ++ [(brk st1, f)]) ++ l)); [done|].
    unfold funcs. rewrite !fmap_app. apply elem_of_app. left.
    apply elem_of_app. right. simpl. apply elem_of_cons. by left.
Qed.

(** Whatever the callbacks do, the loop only returns once the list is
    empty. *)
Lemma do_cleanup_returns_empty fuel st st' :
  do_cleanup fuel st = Return st' tt → callbacks st' = None.
Proof.
  revert st. induction fuel as [|fuel IH]; intros st; [done|].
  simpl. unfold mbind at 1, M_bind, SLIST_FIRST.
  destruct (callbacks st) as [a|] eqn:E.
  - intros (st1 & [] & _ & H)%bind_inv_Return.
    apply bind_inv_Return in H as (st2 & [] & _ & H).
    apply bind_inv_Return in H as (st3 & [] & _ & H). eauto.
  - by intros [= <-].
Qed.

(** Callbacks that leave the registry alone are invoked in list order. *)
Lemma do_cleanup_passive l :
  Forall (λ x, prog x.2 = Done) l →
  ∀ st fuel, wf st l → length l < fuel →
  ∃ st', do_cleanup fuel st = Return st' tt ∧
    callbacks st' = None ∧
    log st' = log st ++ ((λ x, EvCall x.1 x.2) <$> l).
Proof.
  induction l as [|[a f] l IH]; intros Hp st fuel Hwf Hfuel.
  - destruct fuel as [|fuel]; [simpl in Hfuel; lia|].
    destruct Hwf as [Hc _]. apply chain_nil in Hc.
    exists st. rewrite do_cleanup_empty by done. by rewrite app_nil_r.
  - destruct fuel as [|fuel]; [simpl in Hfuel; lia|]. simpl in Hfuel.
    apply Forall_cons in Hp as [Hf Hp]. simpl in Hf.
    pose proof Hwf as [Hc Hb].
    pose proof (chain_NoDup _ _ _ Hc) as Hdup.
    rewrite fmap_cons in Hdup. apply NoDup_cons in Hdup as [Hal _].
    destruct (do_cleanup_turn st a f l fuel Hwf) as (nx & Ha & [Hc1 Hb1] & ->).
    rewrite Hf. simpl. unfold mbind at 1, M_bind, mret, M_ret.
    unfold mbind at 1, M_bind, free. simpl. rewrite Ha.
    destruct (IH Hp (set_heap (delete a (heap st))
                      (add_log (EvCall a f) (set_callbacks nx st))) fuel)
      as (st' & Hrun & Hhd & Hlog); [|lia|].
    + split; simpl.
      * apply (chain_frame (heap st)); [done|].
        intros b Hin. apply lookup_delete_ne. by intros <-.
      * apply map_Forall_delete. exact Hb.
    + exists st'. split; [exact Hrun|]. split; [done|].
      rewrite Hlog. simpl. by rewrite <- app_assoc.
Qed.

(** Registering distinct new functions puts them on the list, last one
    first. *)
Lemma register_all_new fs :
  (∀ n, malloc_ok n = true) → NoDup fs →
  ∀ st l, wf st l → (∀ f, f ∈ fs → f ∉ funcs l) →
  ∃ st' l', register_all fs st = Return st' tt ∧
    wf st' (l' ++ l) ∧ funcs l' = reverse fs ∧
    log st' = log st ++ reg_events l'.
Proof.
  intros Hm. induction fs as [|f fs IH]; intros Hnd st l Hwf Hnew.
  - exists st, []. split; [done|]. split; [done|]. split; [done|].
    unfold reg_events. simpl. by rewrite app_nil_r.
  - apply NoDup_cons in Hnd as [Hf Hnd].
    destruct (IH Hnd (registered f st) ((brk st, f) :: l)) as (st' & l' & Hr & Hw & Hfs & Hlog).
    { by apply wf_registered. }
    { intros g Hg. unfold funcs. rewrite fmap_cons. simpl.
      apply not_elem_of_cons. split.
      - intros ->. done.
      - apply Hnew, elem_of_cons. by right. }
    exists st', (l' ++ [(brk st, f)]). split; [|split; [|split]].
    + simpl. rewrite (bind_Return _ _ _ (registered f st) 0%Z); [done|].
      apply (register_new st l); [done| |done].
      apply Hnew, elem_of_cons. by left.
    + by rewrite <- app_assoc.
    + unfold funcs in *. rewrite fmap_app, Hfs, reverse_cons. done.
    + rewrite Hlog. simpl. unfold reg_events.
      rewrite reverse_app, fmap_app, app_assoc. done.
Qed.

Lemma called_reg_events new : called (reg_events new) = [].
Proof.
  unfold reg_events. induction (reverse new) as [|x l IH]; [done|].
  rewrite fmap_cons. exact IH.
Qed.

Lemma called_calls (l : list (positive * positive)) :
  called ((λ x, EvCall x.1 x.2) <$> l) = funcs l.
Proof.
  induction l as [|[a f] l IH]; [done|].
  rewrite fmap_cons. unfold funcs. rewrite fmap_cons.
  change (f :: called ((λ x, EvCall x.1 x.2) <$> l) = f :: l.*2).
  by rewrite IH.
Qed.

(** X1.  When distinct functions are registered one after the other, malloc
    never failing, and their callbacks leave the registry alone, the drain
    invokes them in the reverse of the order in which they were registered
    and leaves the registry empty. *)
Theorem X1_registrations_drain_last_in_first_out fs :
  (∀ n, malloc_ok n = true) → NoDup fs →
  Forall (λ f, prog f = Done) fs →
  ∃ st', (register_all fs;; do_cleanup (S (length fs))) initial_state
           = Return st' tt ∧
    callbacks st' = None ∧ called (log st') = reverse fs.
Proof.
  intros Hm Hnd Hp.
  destruct (register_all_new fs Hm Hnd initial_state []) as (st1 & l & Hr & Hw & Hfs & Hlog).
  { split; [by apply chain_nil|]. apply map_Forall_empty. }
  { intros f _. apply not_elem_of_nil. }
  rewrite app_nil_r in Hw.
  assert (length l = length fs) as Hlen.
  { apply (f_equal length) in Hfs. unfold funcs in Hfs.
    by rewrite length_fmap, length_reverse in Hfs. }
  destruct (do_cleanup_passive l) with (st := st1) (fuel := S (length fs))
    as (st' & Hrun & Hhd & Hlog'); [|done|lia|].
  { apply Forall_forall. intros [a f] Hx. simpl.
    rewrite Forall_forall in Hp. apply Hp.
    rewrite <- elem_of_reverse, <- Hfs. apply list_elem_of_fmap. by exists (a, f). }
  exists st'. split; [|split; [done|]].
  - by rewrite (bind_Return _ _ _ _ _ Hr).
  - rewrite Hlog', Hlog. simpl.
    by rewrite !called_app, called_reg_events, called_calls.
Qed.

(** ** The drain loop, whatever the callbacks do *)

Lemma do_cleanup_unfold st a nx f fuel :
  callbacks st = Some a → heap st !! a = Some (Callback nx f) →
  do_cleanup (S fuel) st =
    (run_body (prog f);; free (Some a);; do_cleanup fuel)
      (add_log (EvCall a f) (set_callbacks nx st)).
Proof.
  intros Hhd Ha. simpl. unfold invoke. run_prims.
  by repeat (first [rewrite Hhd | rewrite Ha]; simpl).
Qed.

Lemma run_body_doomed b st st' :
  doomed st → run_body b st = Return st' tt → doomed st'.
Proof.
  revert st. induction b as [|f k IH|f k IH]; intros st Hd; simpl.
  - by intros [= <-].
  - intros (st1 & r & Hr & Hk)%bind_inv_Return.
    apply (register_doomed _ _ _ _ Hd) in Hr as ->. eauto.
  - intros (st1 & r & Hr & Hk)%bind_inv_Return.
    apply (deregister_doomed _ _ _ _ Hd) in Hr. eauto.
Qed.

(** A drain of a registry that leads to a freed node does not return. *)
Lemma do_cleanup_doomed fuel st st' :
  doomed st → do_cleanup fuel st ≠ Return st' tt.
Proof.
  revert st. induction fuel as [|fuel IH]; intros st Hd; [done|].
  destruct Hd as (l & d & Hp & Hd). destruct l as [|[a f] l].
  - apply path_nil in Hp. simpl in Hd. simpl. run_prims.
    by repeat (first [rewrite Hp | rewrite Hd]; simpl).
  - apply path_cons in Hp as (Hhd & nx & Ha & Hp).
    rewrite (do_cleanup_unfold st a nx f fuel Hhd Ha).
    intros (st1 & [] & Hrun & Hk)%bind_inv_Return.
    apply bind_inv_Return in Hk as (st2 & [] & Hfree & Hk).
    apply run_body_doomed in Hrun; [|by exists l, d].
    unfold free in Hfree. destruct (heap st1 !! a); [|done].
    injection Hfree as <-. by apply (IH _ (doomed_delete st1 a Hrun)) in Hk.
Qed.

Lemma calls_snoc a f evs e :
  calls a f (evs ++ [e]) = calls a f evs + (if decide (e = EvCall a f) then 1 else 0).
Proof.
  unfold calls. rewrite count_occ_app. simpl.
  destruct (event_eq_dec e (EvCall a f)), (decide (e = EvCall a f)); done.
Qed.

Lemma settled_snoc a f evs e :
  e ≠ EvCall a f → e ≠ EvDereg a f →
  settled a f evs → settled a f (evs ++ [e]).
Proof.
  intros H1 H2. unfold settled. rewrite calls_snoc, decide_False by done.
  rewrite Nat.add_0_r, elem_of_app, list_elem_of_singleton. naive_solver.
Qed.

Lemma settled_call a f evs :
  EvCall a f ∉ evs → EvDereg a f ∉ evs → settled a f (evs ++ [EvCall a f]).
Proof.
  intros H1 H2. left. rewrite calls_snoc, decide_True by done.
  rewrite calls_zero by done. split; [done|].
  rewrite elem_of_app, list_elem_of_singleton. naive_solver.
Qed.

Lemma settled_dereg a f evs :
  EvCall a f ∉ evs → settled a f (evs ++ [EvDereg a f]).
Proof.
  intros H1. right. rewrite calls_snoc, decide_False by done.
  rewrite calls_zero by done. split; [done|].
  rewrite elem_of_app, list_elem_of_singleton. naive_solver.
Qed.

Lemma settled_not_pending a f evs :
  EvCall a f ∉ evs → EvDereg a f ∉ evs → ¬ settled a f evs.
Proof.
  intros H1 H2 [[Hc _]|[_ Hd]]; [|done].
  apply H1, calls_pos. lia.
Qed.

Section DRAIN.

(** The log and the registry at the start of the drain. *)
Variable log0 : list event.
Variable l0 : list (positive * positive).

(** The invariant holds when the drain starts. *)
Lemma drain_inv_start st :
  wf st l0 → log st = log0 → drain_inv log0 l0 st l0 [].
Proof.
  intros Hwf Hlog. split; [done|]. split; [by rewrite app_nil_r|].
  split; [intros a f g _; split; apply not_elem_of_nil|].
  split; [intros a f [Hin|Hin]; [by left|by apply elem_of_nil in Hin]|].
  split; [|done].
  intros a f [Hin|[Hin|Hin]]; by apply elem_of_nil in Hin.
Qed.

(** A registration puts a new node on the list. *)
Lemma drain_inv_push st l evs f :
  drain_inv log0 l0 st l evs →
  drain_inv log0 l0 (registered f st) ((brk st, f) :: l)
    (evs ++ [EvReg (brk st) f]).
Proof.
  intros (Hwf & Hlog & Hpend & Hknown & Hfresh & Hpr).
  split; [by apply wf_registered|].
  split; [simpl; by rewrite Hlog, app_assoc|].
  split; [|split; [|split]].
  - intros a g g' Hin. rewrite !elem_of_app, !list_elem_of_singleton.
    apply elem_of_cons in Hin as [[= -> ->]|Hin].
    + split; intros [Hev| [=]].
      * assert ((brk st < brk st)%positive) by eauto. lia.
      * assert ((brk st < brk st)%positive) by eauto. lia.
    + destruct (Hpend a g g' Hin). naive_solver.
  - intros a g Hk.
    rewrite elem_of_app, list_elem_of_singleton in Hk.
    destruct Hk as [Hk|[Hk| [= -> ->]]].
    + destruct (Hknown a g) as [Hin|Hs]; [by left| |].
      * left. apply elem_of_cons. by right.
      * right. by apply settled_snoc.
    + destruct (Hknown a g) as [Hin|Hs]; [by right| |].
      * left. apply elem_of_cons. by right.
      * right. by apply settled_snoc.
    + left. apply elem_of_cons. by left.
  - intros a g Hev. simpl.
    rewrite !elem_of_app, !list_elem_of_singleton in Hev.
    assert ((a < brk st)%positive ∨ a = brk st) as [Hlt | ->]; [|lia|lia].
    destruct Hev as [[Hev| [=]]|[[Hev| [=]]|[Hev| [= -> ->]]]]; eauto 6.
  - by rewrite printed_app, Hpr.
Qed.

Lemma drain_inv_refused st l evs :
  drain_inv log0 l0 st l evs → drain_inv log0 l0 (refused st) l evs.
Proof.
  intros (Hwf & Hlog & Hpend & Hknown & Hfresh & Hpr).
  split; [by apply wf_refused|done].
Qed.

(** Taking the first node off the list, for the drain to invoke it ([e] is
    its [EvCall]) or because it is deregistered ([e] is its [EvDereg]). *)
Lemma drain_inv_take st st' a f l evs e :
  drain_inv log0 l0 st ((a, f) :: l) evs →
  e = EvCall a f ∨ e = EvDereg a f →
  wf st' l → brk st' = brk st → log st' = log st ++ [e] →
  drain_inv log0 l0 st' l (evs ++ [e]).
Proof.
  intros (Hwf & Hlog & Hpend & Hknown & Hfresh & Hpr) He Hwf' Hbrk Hlog'.
  destruct Hwf as [Hc Hb].
  pose proof (chain_NoDup _ _ _ Hc) as Hnd.
  rewrite fmap_cons in Hnd. apply NoDup_cons in Hnd as [Hal _].
  assert (∀ b g, (b, g) ∈ l → b ≠ a) as Hne.
  { intros b g Hin ->. apply Hal. apply list_elem_of_fmap. by exists (a, g). }
  destruct (Hpend a f f) as [Hca Hda]; [apply elem_of_cons; by left|].
  split; [done|]. split; [by rewrite Hlog', Hlog, app_assoc|].
  split; [|split; [|split]].
  - intros b g g' Hin. rewrite !elem_of_app, !list_elem_of_singleton.
    destruct (Hpend b g g') as [H1 H2]; [apply elem_of_cons; by right|].
    apply Hne in Hin. destruct He as [-> | ->]; naive_solver.
  - intros b g Hk.
    assert ((b, g) ∈ l0 ∨ EvReg b g ∈ evs) as Hk'.
    { destruct Hk as [Hk|Hk]; [by left|right].
      rewrite elem_of_app, list_elem_of_singleton in Hk.
      destruct He as [-> | ->]; naive_solver. }
    destruct (Hknown b g Hk') as [[[= -> ->]|Hin]%elem_of_cons|Hs].
    + right. destruct He as [-> | ->]; [by apply settled_call|by apply settled_dereg].
    + by left.
    + right. assert ((b, g) ≠ (a, f)) as Hbg.
      { intros [= -> ->]. by apply (settled_not_pending a f evs). }
      apply settled_snoc; [| |done]; destruct He as [-> | ->]; congruence.
  - intros b g Hev. rewrite Hbrk.
    rewrite !elem_of_app, !list_elem_of_singleton in Hev.
    assert ((a < brk st)%positive) as Ha.
    { apply chain_cons in Hc as (_ & nx & Hla & _). by apply Hb in Hla. }
    destruct He as [-> | ->];
      destruct Hev as [[Hev| [= -> ->]]|[[Hev| [= -> ->]]|[Hev| [=]]]]; eauto 6.
  - rewrite printed_app, Hpr. by destruct He as [-> | ->].
Qed.

(** Freeing a block that is not on the list. *)
Lemma drain_inv_free st l evs a :
  drain_inv log0 l0 st l evs → a ∉ l.*1 →
  drain_inv log0 l0 (set_heap (delete a (heap st)) st) l evs.
Proof.
  intros ([Hc Hb] & Hlog & Hpend & Hknown & Hfresh & Hpr) Ha.
  split; [|done]. split; simpl.
  - apply (chain_frame (heap st)); [done|].
    intros b Hin. apply lookup_delete_ne. by intros <-.
  - apply map_Forall_delete. exact Hb.
Qed.

Lemma register_keeps st l evs f st' r :
  drain_inv log0 l0 st l evs →
  sudo_fatal_callback_register f st = Return st' r →
  ∃ l' evs', drain_inv log0 l0 st' l' (evs ++ evs').
Proof.
  intros Hinv. pose proof Hinv as (Hwf & _).
  destruct (decide (f ∈ funcs l)) as [Hin|Hnin].
  - rewrite (register_duplicate st l f Hwf Hin). intros [= <- <-].
    exists l, []. by rewrite app_nil_r.
  - destruct (malloc_ok (mallocs st)) eqn:Hm.
    + rewrite (register_new st l f Hwf Hnin Hm). intros [= <- <-].
      exists ((brk st, f) :: l), [EvReg (brk st) f]. by apply drain_inv_push.
    + rewrite (register_no_memory st l f Hwf Hnin Hm). intros [= <- <-].
      exists l, []. rewrite app_nil_r. by apply drain_inv_refused.
Qed.

Lemma deregister_keeps st l evs f st' r :
  drain_inv log0 l0 st l evs →
  sudo_fatal_callback_deregister f st = Return st' r →
  (∃ l' evs', drain_inv log0 l0 st' l' (evs ++ evs')) ∨ doomed st'.
Proof.
  intros Hinv. pose proof Hinv as (Hwf & _).
  destruct (decide (f ∈ funcs l)) as [Hin|Hnin].
  - destruct (split_at_function l f Hin) as (l1 & a & l2 & -> & Hn1).
    destruct l1 as [|x l1].
    + rewrite app_nil_l in Hwf, Hinv.
      destruct (deregister_first st a f l2 Hwf) as (nx & Ha & -> & Hwf').
      intros [= <- <-]. left. exists l2, [EvDereg a f].
      apply (drain_inv_take st _ a f l2 evs); [done|by right|done|done|done].
    + destruct (deregister_not_first st (x :: l1) a f l2 Hwf) as [-> Hd]; [done|done|].
      destruct l2; [done|]. intros [= <- <-]. by right.
  - rewrite (deregister_absent st l f Hwf Hnin). intros [= <- <-].
    left. exists l, []. by rewrite app_nil_r.
Qed.

Lemma run_body_keeps b st l evs st' :
  drain_inv log0 l0 st l evs →
  run_body b st = Return st' tt →
  (∃ l' evs', drain_inv log0 l0 st' l' (evs ++ evs')) ∨ doomed st'.
Proof.
  revert st l evs. induction b as [|f k IH|f k IH]; intros st l evs Hinv; simpl.
  - intros [= <-]. left. exists l, []. by rewrite app_nil_r.
  - intros (st1 & r & Hr & Hk)%bind_inv_Return.
    destruct (register_keeps _ _ _ _ _ _ Hinv Hr) as (l1 & e1 & Hinv1).
    destruct (IH r _ _ _ Hinv1 Hk) as [(l2 & e2 & Hinv2)|Hd]; [left|by right].
    exists l2, (e1 ++ e2). by rewrite app_assoc.
  - intros (st1 & r & Hr & Hk)%bind_inv_Return.
    destruct (deregister_keeps _ _ _ _ _ _ Hinv Hr) as [(l1 & e1 & Hinv1)|Hd].
    + destruct (IH r _ _ _ Hinv1 Hk) as [(l2 & e2 & Hinv2)|Hd]; [left|by right].
      exists l2, (e1 ++ e2). by rewrite app_assoc.
    + right. by eapply run_body_doomed.
Qed.

(** A drain that returns has kept the invariant and emptied the list. *)
Lemma do_cleanup_keeps fuel st l evs st' :
  drain_inv log0 l0 st l evs →
  do_cleanup fuel st = Return st' tt →
  ∃ evs', drain_inv log0 l0 st' [] (evs ++ evs').
Proof.
  revert st l evs. induction fuel as [|fuel IH]; intros st l evs Hinv; [done|].
  destruct l as [|[a f] l].
  - pose proof Hinv as ([Hc _] & _). apply chain_nil in Hc.
    rewrite do_cleanup_empty by done. intros [= <-].
    exists []. by rewrite app_nil_r.
  - pose proof Hinv as ([Hc Hb] & _).
    pose proof (chain_NoDup _ _ _ Hc) as Hnd.
    rewrite fmap_cons in Hnd. apply NoDup_cons in Hnd as [Hal _].
    apply chain_cons in Hc as (Hhd & nx & Ha & Hc).
    rewrite (do_cleanup_unfold st a nx f fuel Hhd Ha).
    intros (st1 & [] & Hrun & Hk)%bind_inv_Return.
    apply bind_inv_Return in Hk as (st2 & [] & Hfree & Hk).
    assert (drain_inv log0 l0 (add_log (EvCall a f) (set_callbacks nx st)) l
              (evs ++ [EvCall a f])) as Hinv1.
    { apply (drain_inv_take st _ a f l evs); [done|by left| |done|done].
      by split. }
    unfold free in Hfree. destruct (heap st1 !! a) eqn:Ha1; [|done].
    injection Hfree as <-.
    destruct (run_body_keeps _ _ _ _ _ Hinv1 Hrun) as [(l2 & e2 & Hinv2)|Hd].
    + assert (a ∉ l2.*1) as Hnin.
      { intros ([a' g] & -> & Hin)%list_elem_of_fmap. simpl in *.
        destruct Hinv2 as (_ & _ & Hpend & _).
        destruct (Hpend a' g f Hin) as [Hca _]. apply Hca.
        rewrite !elem_of_app, list_elem_of_singleton. naive_solver. }
      destruct (IH _ _ _ (drain_inv_free _ _ _ a Hinv2 Hnin) Hk) as (e3 & Hinv3).
      exists ([EvCall a f] ++ e2 ++ e3). by rewrite !app_assoc.
    + by apply (do_cleanup_doomed _ _ _ (doomed_delete st1 a Hd)) in Hk.
Qed.

End DRAIN.

(** What a drain that returns has done, whatever its callbacks do: the list
    is empty; every entry that was on it at the start, and every entry
    registered during the drain, has been invoked exactly once, or has been
    deregistered by a callback and not invoked; nothing has been printed. *)
Lemma do_cleanup_settles fuel st l st' :
  wf st l → do_cleanup fuel st = Return st' tt →
  callbacks st' = None ∧
  ∃ evs, log st' = log st ++ evs ∧
    (∀ a f, (a, f) ∈ l → settled a f evs) ∧
    (∀ a f, EvReg a f ∈ evs → settled a f evs) ∧
    printed evs = [].
Proof.
  intros Hwf Hrun.
  destruct (do_cleanup_keeps (log st) l fuel st l [] st')
    as (evs & [Hc _] & Hlog & _ & Hknown & _ & Hpr);
    [by apply drain_inv_start|done|].
  apply chain_nil in Hc. split; [done|]. exists evs.
  split; [done|]. split; [|split; [|done]].
  - intros a f Hin. destruct (Hknown a f) as [Hn|Hs]; [by left| |done].
    by apply elem_of_nil in Hn.
  - intros a f Hin. destruct (Hknown a f) as [Hn|Hs]; [by right| |done].
    by apply elem_of_nil in Hn.
Qed.

(** ** Walking a registry *)

Lemma walk_chain h p l n : chain h p l → length l ≤ n → walk n h p = l.
Proof.
  revert p n. induction l as [|[a f] l IH]; intros p n.
  - rewrite chain_nil. intros -> _. by destruct n.
  - rewrite chain_cons. intros (-> & nx & Ha & Hc) Hn.
    destruct n as [|n]; [simpl in Hn; lia|]. simpl in Hn.
    simpl. rewrite Ha. simpl. f_equal. apply IH; [done|lia].
Qed.

Lemma entries_of_wf st l : wf st l → entries_of st = l.
Proof. intros [Hc _]. apply walk_chain; eauto using chain_length. Qed.

(** The walk stops in front of a freed node. *)
Lemma walk_freed h p l1 a f l2 n :
  chain h p (l1 ++ (a, f) :: l2) → length l1 ≤ n →
  walk n (delete a h) p = l1.
Proof.
  revert p n. induction l1 as [|[b g] l1 IH]; intros p n Hc Hn.
  - simpl in Hc. apply chain_cons in Hc as (-> & _).
    destruct n; [done|]. simpl. by rewrite lookup_delete_eq.
  - pose proof (chain_NoDup _ _ _ Hc) as Hdup.
    simpl in Hc. apply chain_cons in Hc as (-> & nx & Hb & Hc).
    destruct n as [|n]; [simpl in Hn; lia|]. simpl in Hn.
    assert (a ≠ b) as Hab.
    { intros ->. rewrite <- app_comm_cons, fmap_cons in Hdup.
      apply NoDup_cons in Hdup as [Hdup _]. apply Hdup.
      rewrite fmap_app, fmap_cons. apply elem_of_app. right.
      apply elem_of_cons. by left. }
    simpl. rewrite lookup_delete_ne by done. rewrite Hb. simpl.
    f_equal. apply IH; [done|lia].
Qed.

(** ** The dispatcher *)

(** The line [_warning] prints in each of its three branches. *)
Lemma vformat_three null (a b c : option string) :
  vformat null ("%s: %s: %s" +:+ newline) [a; b; c]
  = render null a +:+ ": " +:+ render null b +:+ ": "
      +:+ render null c +:+ newline.
Proof. reflexivity. Qed.

Lemma vformat_two null (a b : option string) :
  vformat null ("%s: %s" +:+ newline) [a; b]
  = render null a +:+ ": " +:+ render null b +:+ newline.
Proof. reflexivity. Qed.

Lemma warning_prints errnum fmt ap :
  ∃ line, ∀ st, _warning errnum fmt ap st
    = Return (add_log (EvPrintf SUDO_CONV_ERROR_MSG line) st) tt.
Proof.
  unfold _warning. destruct (decide (errnum ≠ 0%Z)); [destruct fmt|]; eauto.
Qed.

Lemma call_warn_prints e errno fmt ap :
  ∃ line, ∀ st, call_warn e errno fmt ap st
    = Return (add_log (EvPrintf SUDO_CONV_ERROR_MSG line) st) tt.
Proof. destruct e; apply warning_prints. Qed.

Lemma call_fatal_prints e errno fmt ap :
  ∃ line, ∀ fuel st, call_fatal e fuel errno fmt ap st
    = (do_cleanup fuel;; exit EXIT_FAILURE)
        (add_log (EvPrintf SUDO_CONV_ERROR_MSG line) st).
Proof.
  destruct e; simpl.
  - destruct (warning_prints errno fmt ap) as [line H]. exists line. intros.
    unfold sudo_fatal_nodebug. by rewrite (bind_Return _ _ _ _ _ (H st)).
  - destruct (warning_prints 0 fmt ap) as [line H]. exists line. intros.
    unfold sudo_fatalx_nodebug. by rewrite (bind_Return _ _ _ _ _ (H st)).
  - destruct (warning_prints errno fmt ap) as [line H]. exists line. intros.
    unfold sudo_vfatal_nodebug. by rewrite (bind_Return _ _ _ _ _ (H st)).
  - destruct (warning_prints 0 fmt ap) as [line H]. exists line. intros.
    unfold sudo_vfatalx_nodebug. by rewrite (bind_Return _ _ _ _ _ (H st)).
Qed.

(** The same, with the line that is printed: it follows the three-way rule
    for the error number the entry point hands on. *)
Lemma warning_line errnum fmt ap :
  ∃ line,
    (∀ st, _warning errnum fmt ap st
       = Return (add_log (EvPrintf SUDO_CONV_ERROR_MSG line) st) tt) ∧
    (∀ tmpl msg,
       errnum ≠ 0%Z → fmt = Some tmpl → sudo_evasprintf fmt ap = Some msg →
       line = getprogname +:+ ": " +:+ msg +:+ ": "
                +:+ sudo_warn_strerror errnum +:+ newline) ∧
    (errnum ≠ 0%Z → fmt = None →
       line = getprogname +:+ ": " +:+ sudo_warn_strerror errnum +:+ newline) ∧
    (errnum = 0%Z →
       line = getprogname +:+ ": "
                +:+ default "(null)" (sudo_evasprintf fmt ap) +:+ newline).
Proof.
  unfold _warning, sudo_printf, emit, modify, gettext.
  destruct (decide (errnum ≠ 0%Z)) as [He|He]; [destruct fmt as [t|]|].
  - eexists. split; [done|]. rewrite vformat_three.
    split; [|split; [done|done]]. intros tmpl msg _ _ ->. done.
  - eexists. split; [done|]. rewrite vformat_two. done.
  - eexists. split; [done|]. rewrite vformat_two.
    split; [|split]; [intros; done|intros; done|done].
Qed.

Lemma call_warn_line e errno fmt ap :
  ∃ line,
    (∀ st, call_warn e errno fmt ap st
       = Return (add_log (EvPrintf SUDO_CONV_ERROR_MSG line) st) tt) ∧
    (∀ tmpl msg,
       warn_errnum e errno ≠ 0%Z → fmt = Some tmpl →
       sudo_evasprintf fmt ap = Some msg →
       line = getprogname +:+ ": " +:+ msg +:+ ": "
                +:+ sudo_warn_strerror (warn_errnum e errno) +:+ newline) ∧
    (warn_errnum e errno ≠ 0%Z → fmt = None →
       line = getprogname +:+ ": "
                +:+ sudo_warn_strerror (warn_errnum e errno) +:+ newline) ∧
    (warn_errnum e errno = 0%Z →
       line = getprogname +:+ ": "
                +:+ default "(null)" (sudo_evasprintf fmt ap) +:+ newline).
Proof. destruct e; apply warning_line. Qed.

Lemma call_fatal_line e errno fmt ap :
  ∃ line,
    (∀ fuel st, call_fatal e fuel errno fmt ap st
       = (do_cleanup fuel;; exit EXIT_FAILURE)
           (add_log (EvPrintf SUDO_CONV_ERROR_MSG line) st)) ∧
    (∀ tmpl msg,
       fatal_errnum e errno ≠ 0%Z → fmt = Some tmpl →
       sudo_evasprintf fmt ap = Some msg →
       line = getprogname +:+ ": " +:+ msg +:+ ": "
                +:+ sudo_warn_strerror (fatal_errnum e errno) +:+ newline) ∧
    (fatal_errnum e errno ≠ 0%Z → fmt = None →
       line = getprogname +:+ ": "
                +:+ sudo_warn_strerror (fatal_errnum e errno) +:+ newline) ∧
    (fatal_errnum e errno = 0%Z →
       line = getprogname +:+ ": "
                +:+ default "(null)" (sudo_evasprintf fmt ap) +:+ newline).
Proof.
  destruct (warning_line (fatal_errnum e errno) fmt ap) as (line & H & Hshape).
  exists line. split; [|exact Hshape]. intros fuel st.
  destruct e; simpl in *;
    unfold sudo_fatal_nodebug, sudo_fatalx_nodebug, sudo_vfatal_nodebug,
      sudo_vfatalx_nodebug;
    by rewrite (bind_Return _ _ _ _ _ (H st)).
Qed.

(** Only [exit] ends the process: nothing in the registry code does. *)
Lemma never_exits_bind {A B} (m : M A) (k : A → M B) :
  never_exits m → (∀ a, never_exits (k a)) → never_exits (m ≫= k).
Proof.
  intros Hm Hk st st' c. unfold mbind, M_bind.
  destruct (m st) as [s a|s d| |] eqn:E; try done.
  - apply Hk.
  - by apply Hm in E.
Qed.

Lemma never_exits_ret {A} (a : A) : never_exits (mret a).
Proof. done. Qed.

Lemma never_exits_load p : never_exits (load p).
Proof. intros st st' c. unfold load. destruct p; [|done]. by destruct (_ !! _). Qed.

Lemma never_exits_store p c : never_exits (store p c).
Proof. intros st st' d. unfold store. destruct p; [|done]. by destruct (_ !! _). Qed.

Lemma never_exits_free p : never_exits (free p).
Proof. intros st st' d. unfold free. destruct p; [|done]. by destruct (_ !! _). Qed.

Lemma never_exits_malloc : never_exits malloc.
Proof. intros st st' d. unfold malloc. by destruct (malloc_ok _). Qed.

Lemma never_exits_modify f : never_exits (modify f).
Proof. done. Qed.

Lemma never_exits_first : never_exits SLIST_FIRST.
Proof. done. Qed.

Create HintDb no_exit.
#[local] Hint Resolve never_exits_ret never_exits_load never_exits_store
  never_exits_free never_exits_malloc never_exits_modify never_exits_first
  : no_exit.

#[local] Hint Resolve never_exits_bind : no_exit.

Lemma never_exits_next p : never_exits (SLIST_NEXT p).
Proof. unfold SLIST_NEXT. auto 10 with no_exit. Qed.

Lemma never_exits_set_next p q : never_exits (set_next p q).
Proof. unfold set_next. auto 10 with no_exit. Qed.

Lemma never_exits_set_func p f : never_exits (set_func p f).
Proof. unfold set_func. auto 10 with no_exit. Qed.

#[local] Hint Resolve never_exits_next never_exits_set_next never_exits_set_func
  : no_exit.

Lemma never_exits_remove_head : never_exits SLIST_REMOVE_HEAD.
Proof. unfold SLIST_REMOVE_HEAD. auto 10 with no_exit. Qed.

Lemma never_exits_insert_head p : never_exits (SLIST_INSERT_HEAD p).
Proof. unfold SLIST_INSERT_HEAD. auto 10 with no_exit. Qed.

Lemma never_exits_remove_after p : never_exits (SLIST_REMOVE_AFTER p).
Proof. unfold SLIST_REMOVE_AFTER. auto 10 with no_exit. Qed.

Lemma never_exits_deref varp : never_exits (deref varp).
Proof. destruct varp; simpl; auto with no_exit. Qed.

#[local] Hint Resolve never_exits_remove_head never_exits_insert_head
  never_exits_remove_after never_exits_deref : no_exit.

Lemma never_exits_register_scan n f p : never_exits (register_scan n f p).
Proof.
  revert p. induction n as [|n IH]; intros [a|]; simpl; try done.
  apply never_exits_bind; [auto with no_exit|]. intros c.
  destruct (decide _); [done|apply IH].
Qed.

Lemma never_exits_register f : never_exits (sudo_fatal_callback_register f).
Proof.
  unfold sudo_fatal_callback_register.
  apply never_exits_bind; [done|]. intros st.
  apply never_exits_bind; [done|]. intros first.
  apply never_exits_bind; [apply never_exits_register_scan|]. intros [|]; [done|].
  apply never_exits_bind; [auto with no_exit|]. intros [a|]; [|done].
  unfold emit. auto 10 with no_exit.
Qed.

Lemma never_exits_deregister_scan n f prev : never_exits (deregister_scan n f prev).
Proof.
  revert prev. induction n as [|n IH]; intros prev; simpl.
  - apply never_exits_bind; [auto with no_exit|]. by intros [a|].
  - apply never_exits_bind; [auto with no_exit|]. intros [a|]; [|done].
    apply never_exits_bind; [auto with no_exit|]. intros c.
    destruct (decide _); [|apply IH].
    apply never_exits_bind; [done|]. intros first.
    apply never_exits_bind.
    + destruct (decide _); auto 10 with no_exit.
    + intros _. unfold emit. auto 10 with no_exit.
Qed.

Lemma never_exits_deregister f : never_exits (sudo_fatal_callback_deregister f).
Proof.
  unfold sudo_fatal_callback_deregister.
  apply never_exits_bind; [done|]. intros st. apply never_exits_deregister_scan.
Qed.

Lemma never_exits_run_body b : never_exits (run_body b).
Proof.
  induction b as [|f k IH|f k IH]; simpl; [done| |].
  - apply never_exits_bind; [apply never_exits_register|done].
  - apply never_exits_bind; [apply never_exits_deregister|done].
Qed.

Lemma never_exits_invoke p : never_exits (invoke p).
Proof.
  unfold invoke. apply never_exits_bind; [auto with no_exit|]. intros c.
  destruct p; [|done]. unfold emit.
  apply never_exits_bind; [done|]. intros _. apply never_exits_run_body.
Qed.

Lemma never_exits_do_cleanup fuel : never_exits (do_cleanup fuel).
Proof.
  induction fuel as [|fuel IH]; simpl; [done|].
  apply never_exits_bind; [done|]. intros [a|]; [|done].
  apply never_exits_bind; [auto with no_exit|]. intros _.
  apply never_exits_bind; [apply never_exits_invoke|]. intros _.
  apply never_exits_bind; [auto with no_exit|]. intros _. exact IH.
Qed.

Lemma cleanup_exit_Exit fuel st st' c :
  (do_cleanup fuel;; exit EXIT_FAILURE) st = Exit (A := unit) st' c →
  c = EXIT_FAILURE ∧ do_cleanup fuel st = Return st' tt.
Proof.
  unfold mbind at 1, M_bind.
  destruct (do_cleanup fuel st) as [st1 []|st1 c1| |] eqn:E; try done.
  - unfold exit. by intros [= <- <-].
  - by apply never_exits_do_cleanup in E.
Qed.

Lemma cleanup_exit_not_Return fuel st st' u :
  (do_cleanup fuel;; exit EXIT_FAILURE) st ≠ Return (A := unit) st' u.
Proof. unfold mbind, M_bind. by destruct (do_cleanup fuel st). Qed.

Lemma string_length_app (s1 s2 : string) :
  String.length (s1 +:+ s2) = String.length s1 + String.length s2.
Proof. induction s1 as [|c s1 IH]; simpl; [done|]. by rewrite IH. Qed.

(** When the formatter fails on a template while an error number is set,
    the line printed is not the one the same call prints without a template,
    whatever the output channel makes of the null string. *)
Lemma format_failure_line errnum tmpl ap st :
  errnum ≠ 0%Z → sudo_evasprintf (Some tmpl) ap = None →
  _warning errnum (Some tmpl) ap st =
    Return (add_log (EvPrintf SUDO_CONV_ERROR_MSG
      (getprogname +:+ ": " +:+ null_text +:+ ": "
         +:+ sudo_warn_strerror errnum +:+ newline)) st) tt ∧
  _warning errnum (Some tmpl) ap st ≠ _warning errnum None ap st.
Proof.
  intros He Hs. unfold _warning, sudo_printf, emit, modify, gettext.
  rewrite !decide_True by done. rewrite vformat_three, vformat_two, Hs.
  split; [done|]. simpl. intros [= H]. apply (inj _) in H.
  injection H as H. apply (f_equal String.length) in H.
  rewrite !string_length_app in H. simpl in H. lia.
Qed.

(** ** The claims *)

(** C2 (as amended).  On a well-formed registry, a drain that completes
    leaves the registry empty, and every entry that was on the list at the
    start has had its function invoked exactly once, unless a callback run by
    the drain deregistered it, in which case its function has not been
    invoked.  When no callback deregisters, every such entry has been invoked
    exactly once, and the drain does complete, with enough fuel, when the
    registrations set off by the callbacks come to an end. *)
Theorem C2_drain_invokes_each_entry_once st l :
  wf st l →
  (∀ fuel st',
     do_cleanup fuel st = Return st' tt →
     callbacks st' = None ∧
     ∃ evs, log st' = log st ++ evs ∧
       ∀ a f, (a, f) ∈ l → settled a f evs) ∧
  ((∀ f, no_deregister (prog f) = true) →
     (∀ fuel st',
        do_cleanup fuel st = Return st' tt →
        ∃ evs, log st' = log st ++ evs ∧
          ∀ a f, (a, f) ∈ l → calls a f evs = 1) ∧
     (∀ n, Forall (λ x, settles n x.2 = true) l →
        ∃ fuel st', do_cleanup fuel st = Return st' tt)).
Proof.
  intros Hwf. split; [|intros Hnd; split].
  - intros fuel st' Hrun.
    destruct (do_cleanup_settles fuel st l st' Hwf Hrun)
      as (Hhd & evs & Hlog & Hone & _).
    split; [done|]. by exists evs.
  - intros fuel st' Hrun.
    destruct (do_cleanup_register_only Hnd fuel st l st' Hwf Hrun)
      as (_ & evs & Hlog & Hone & _).
    by exists evs.
  - intros n Hs. by eapply do_cleanup_terminates.
Qed.

(** C3 (as amended).  On a well-formed registry, a call of any of the four
    fatal functions never returns to its caller.  When it ends the process,
    it does so with the failure status, having printed exactly one line, the
    one of the three-way rule for the error number of the entry point, and
    then, after that line, drained the registry: the registry is empty and
    every entry that was on the list has had its function invoked exactly
    once, unless a callback run by the drain deregistered it, in which case
    its function has not been invoked (invoked exactly once when no callback
    deregisters).  And it does end the process, with enough fuel, when no
    callback deregisters and the registrations set off by the callbacks come
    to an end. *)
Theorem C3_fatal_prints_drains_exits (e : fatal_entry) errno fmt ap st l :
  wf st l →
  (∀ fuel st' u, call_fatal e fuel errno fmt ap st ≠ Return st' u) ∧
  (∀ fuel st' c,
     call_fatal e fuel errno fmt ap st = Exit st' c →
     c = EXIT_FAILURE ∧ callbacks st' = None ∧
     ∃ line evs,
       log st' = log st ++ EvPrintf SUDO_CONV_ERROR_MSG line :: evs ∧
       printed evs = [] ∧
       (∀ tmpl msg,
          fatal_errnum e errno ≠ 0%Z → fmt = Some tmpl →
          sudo_evasprintf fmt ap = Some msg →
          line = getprogname +:+ ": " +:+ msg +:+ ": "
                   +:+ sudo_warn_strerror (fatal_errnum e errno) +:+ newline) ∧
       (fatal_errnum e errno ≠ 0%Z → fmt = None →
          line = getprogname +:+ ": "
                   +:+ sudo_warn_strerror (fatal_errnum e errno) +:+ newline) ∧
       (fatal_errnum e errno = 0%Z →
          line = getprogname +:+ ": "
                   +:+ default "(null)" (sudo_evasprintf fmt ap) +:+ newline) ∧
       (∀ a f, (a, f) ∈ l → settled a f evs) ∧
       ((∀ f, no_deregister (prog f) = true) →
          ∀ a f, (a, f) ∈ l → calls a f evs = 1)) ∧
  ((∀ f, no_deregister (prog f) = true) →
     ∀ n, Forall (λ x, settles n x.2 = true) l →
       ∃ fuel st', call_fatal e fuel errno fmt ap st = Exit st' EXIT_FAILURE).
Proof.
  intros Hwf.
  destruct (call_fatal_line e errno fmt ap) as (line & Hcall & Hs1 & Hs2 & Hs3).
  assert (wf (add_log (EvPrintf SUDO_CONV_ERROR_MSG line) st) l) as Hwf'
    by (by destruct Hwf).
  split; [|split].
  - intros fuel st' u. rewrite Hcall. apply cleanup_exit_not_Return.
  - intros fuel st' c. rewrite Hcall.
    intros [-> Hrun]%cleanup_exit_Exit. split; [done|].
    destruct (do_cleanup_settles fuel _ l st' Hwf' Hrun)
      as (Hhd & evs & Hlog & Hone & _ & Hpr).
    split; [done|]. exists line, evs.
    split; [|split; [done|split; [done|split; [done|split; [done|split; [done|]]]]]].
    + rewrite Hlog. simpl. by rewrite <- app_assoc.
    + intros Hnd a f Hin.
      destruct (do_cleanup_register_only Hnd fuel _ l st' Hwf' Hrun)
        as (_ & evs' & Hlog' & Hone' & _).
      rewrite Hlog in Hlog'. apply app_inv_head in Hlog' as ->. eauto.
  - intros Hnd n Hs.
    destruct (do_cleanup_terminates n _ l Hnd Hwf' Hs) as (fuel & st' & Hrun).
    exists fuel, st'. rewrite Hcall.
    unfold mbind at 1, M_bind. by rewrite Hrun.
Qed.

(** C4.  The line printed by [_warning] follows the three-way rule: with a
    nonzero error number and a template, program name, formatted message and
    error description; with a nonzero error number and no template, program
    name and error description; with error number zero, program name and the
    formatted message, or the text (null) in its place.  The entry points
    without x pass on errno, those with x pass on zero. *)
Theorem C4_message_shape errnum errno fmt ap fuel st :
  (∀ tmpl msg,
     errnum ≠ 0%Z → fmt = Some tmpl → sudo_evasprintf fmt ap = Some msg →
     _warning errnum fmt ap st =
       Return (add_log (EvPrintf SUDO_CONV_ERROR_MSG
         (getprogname +:+ ": " +:+ msg +:+ ": "
            +:+ sudo_warn_strerror errnum +:+ newline)) st) tt) ∧
  (errnum ≠ 0%Z → fmt = None →
     _warning errnum fmt ap st =
       Return (add_log (EvPrintf SUDO_CONV_ERROR_MSG
         (getprogname +:+ ": " +:+ sudo_warn_strerror errnum +:+ newline)) st) tt) ∧
  (errnum = 0%Z →
     _warning errnum fmt ap st =
       Return (add_log (EvPrintf SUDO_CONV_ERROR_MSG
         (getprogname +:+ ": "
            +:+ default "(null)" (sudo_evasprintf fmt ap) +:+ newline)) st) tt) ∧
  (sudo_warn_nodebug errno fmt ap = _warning errno fmt ap ∧
   sudo_vwarn_nodebug errno fmt ap = _warning errno fmt ap ∧
   sudo_warnx_nodebug fmt ap = _warning 0 fmt ap ∧
   sudo_vwarnx_nodebug fmt ap = _warning 0 fmt ap) ∧
  (sudo_fatal_nodebug fuel errno fmt ap st
     = (_warning errno fmt ap;; do_cleanup fuel;; exit EXIT_FAILURE) st ∧
   sudo_vfatal_nodebug fuel errno fmt ap st
     = (_warning errno fmt ap;; do_cleanup fuel;; exit EXIT_FAILURE) st ∧
   sudo_fatalx_nodebug fuel fmt ap st
     = (_warning 0 fmt ap;; do_cleanup fuel;; exit EXIT_FAILURE) st ∧
   sudo_vfatalx_nodebug fuel fmt ap st
     = (_warning 0 fmt ap;; do_cleanup fuel;; exit EXIT_FAILURE) st).
Proof.
  split; [|split; [|split; [|split]]].
  - intros tmpl msg He -> Hs. unfold _warning, sudo_printf, emit, modify, gettext.
    rewrite decide_True by done. by rewrite vformat_three, Hs.
  - intros He ->. unfold _warning, sudo_printf, emit, modify, gettext.
    rewrite decide_True by done. by rewrite vformat_two.
  - intros ->. unfold _warning, sudo_printf, emit, modify, gettext.
    rewrite decide_False by (by intros H). by rewrite vformat_two.
  - done.
  - done.
Qed.

(** C5.  On a well-formed registry, registering a function that is already
    registered returns -1 and changes nothing at all; and when the registry
    holds no function twice, it still holds none twice after any call of the
    register function, after any call of the deregister function that
    returns, and after any drain that returns. *)
Theorem C5_duplicate_register_rejected st l f :
  wf st l →
  (f ∈ funcs l → sudo_fatal_callback_register f st = Return st (-1)%Z) ∧
  (no_duplicates st →
     (∃ st' r, sudo_fatal_callback_register f st = Return st' r ∧
        no_duplicates st') ∧
     (∀ st' r, sudo_fatal_callback_deregister f st = Return st' r →
        no_duplicates st') ∧
     (∀ fuel st', do_cleanup fuel st = Return st' tt → no_duplicates st')).
Proof.
  intros Hwf. split; [by apply register_duplicate|].
  unfold no_duplicates at 1. rewrite (entries_of_wf _ _ Hwf). intros Hnd.
  split; [|split].
  - destruct (decide (f ∈ funcs l)) as [Hin|Hnin].
    + exists st, (-1)%Z. split; [by eapply register_duplicate|].
      unfold no_duplicates. by rewrite (entries_of_wf _ _ Hwf).
    + destruct (malloc_ok (mallocs st)) eqn:Hm.
      * exists (registered f st), 0%Z. split; [by eapply register_new|].
        unfold no_duplicates.
        rewrite (entries_of_wf _ _ (wf_registered _ _ f Hwf)).
        unfold funcs. rewrite fmap_cons. by apply NoDup_cons.
      * exists (refused st), (-1)%Z. split; [by eapply register_no_memory|].
        unfold no_duplicates. by rewrite (entries_of_wf _ _ (wf_refused _ _ Hwf)).
  - intros st' r. destruct (decide (f ∈ funcs l)) as [Hin|Hnin].
    + destruct (split_at_function l f Hin) as (l1 & a & l2 & -> & Hf1).
      destruct l1 as [|x l1].
      * rewrite app_nil_l in Hwf, Hnd.
        destruct (deregister_first st a f l2 Hwf) as (nx & _ & -> & Hwf').
        intros [= <- <-]. unfold no_duplicates. rewrite (entries_of_wf _ _ Hwf').
        unfold funcs in Hnd. rewrite fmap_cons in Hnd.
        by apply NoDup_cons in Hnd as [_ Hnd].
      * destruct (deregister_not_first st (x :: l1) a f l2 Hwf) as [-> _];
          [done|done|].
        destruct l2 as [|y l2]; [done|]. intros [= <- <-].
        unfold no_duplicates, entries_of. simpl.
        destruct Hwf as [Hc _]. pose proof (chain_length _ _ _ Hc) as Hlen.
        rewrite (walk_freed _ _ (x :: l1) a f (y :: l2)); [|done|].
        { unfold funcs in Hnd. rewrite fmap_app in Hnd.
          by apply NoDup_app in Hnd as [Hnd _]. }
        rewrite length_app in Hlen. simpl in Hlen.
        apply path_app in Hc as (r0 & _ & (_ & nx & Ha & _)%path_cons).
        rewrite map_size_delete, Ha. simpl in *. lia.
    + rewrite (deregister_absent st l f Hwf Hnin). intros [= <- <-].
      unfold no_duplicates. by rewrite (entries_of_wf _ _ Hwf).
  - intros fuel st' Hrun%do_cleanup_returns_empty.
    unfold no_duplicates, entries_of. rewrite Hrun.
    destruct (size (heap st')); constructor.
Qed.

(** C7.  A call of any of the four warn functions returns to its caller,
    having printed one line and nothing else: the line of the three-way rule
    for the error number of the entry point (errno for the functions without
    x, zero for those with x).  The memory, the list head and the allocator
    are exactly as before the call: no entry has been added, removed or
    invoked. *)
Theorem C7_warn_returns_registry_untouched (e : warn_entry) errno fmt ap st :
  ∃ st' line,
    call_warn e errno fmt ap st = Return st' tt ∧
    registry st' = registry st ∧
    brk st' = brk st ∧ mallocs st' = mallocs st ∧
    log st' = log st ++ [EvPrintf SUDO_CONV_ERROR_MSG line] ∧
    (∀ tmpl msg,
       warn_errnum e errno ≠ 0%Z → fmt = Some tmpl →
       sudo_evasprintf fmt ap = Some msg →
       line = getprogname +:+ ": " +:+ msg +:+ ": "
                +:+ sudo_warn_strerror (warn_errnum e errno) +:+ newline) ∧
    (warn_errnum e errno ≠ 0%Z → fmt = None →
       line = getprogname +:+ ": "
                +:+ sudo_warn_strerror (warn_errnum e errno) +:+ newline) ∧
    (warn_errnum e errno = 0%Z →
       line = getprogname +:+ ": "
                +:+ default "(null)" (sudo_evasprintf fmt ap) +:+ newline).
Proof.
  destruct (call_warn_line e errno fmt ap) as (line & H & Hshape).
  exists (add_log (EvPrintf SUDO_CONV_ERROR_MSG line) st), line.
  by rewrite H.
Qed.

(** C10 (as amended).  On a well-formed registry: when the drain returns,
    every node that a callback registered during the drain has been taken off
    the list again and has had its function invoked exactly once, unless a
    callback deregistered it first, in which case its function has not been
    invoked.  When no callback deregisters: every such node has had its
    function invoked; the drain does return, with enough fuel, when the
    registrations set off by the callbacks come to an end; and when the list
    holds a function whose first act is to register itself again, the drain
    is still running whatever the fuel, as long as malloc never fails. *)
Theorem C10_drain_runs_late_registrations st l :
  wf st l →
  (∀ fuel st',
     do_cleanup fuel st = Return st' tt →
     callbacks st' = None ∧
     ∃ evs, log st' = log st ++ evs ∧
       ∀ a f, EvReg a f ∈ evs → settled a f evs) ∧
  ((∀ f, no_deregister (prog f) = true) →
     (∀ fuel st',
        do_cleanup fuel st = Return st' tt →
        ∃ evs, log st' = log st ++ evs ∧
          ∀ a f, EvReg a f ∈ evs → EvCall a f ∈ evs) ∧
     (∀ n, Forall (λ x, settles n x.2 = true) l →
        ∃ fuel st', do_cleanup fuel st = Return st' tt) ∧
     (∀ f k,
        f ∈ funcs l → prog f = CallRegister f k →
        (∀ n, malloc_ok n = true) →
        ∀ fuel, do_cleanup fuel st = OutOfFuel)).
Proof.
  intros Hwf. split; [|intros Hnd; split; [|split]].
  - intros fuel st' Hrun.
    destruct (do_cleanup_settles fuel st l st' Hwf Hrun)
      as (Hhd & evs & Hlog & _ & Hreg & _).
    split; [done|]. by exists evs.
  - intros fuel st' Hrun.
    destruct (do_cleanup_register_only Hnd fuel st l st' Hwf Hrun)
      as (_ & evs & Hlog & _ & _ & Hreg & _).
    exists evs. split; [done|]. intros a f Hin. by apply Hreg in Hin as [_ Hin].
  - intros n Hs. by eapply do_cleanup_terminates.
  - intros f k Hin Hf Hm fuel.
    by apply (do_cleanup_self_registering f k Hnd Hm Hf fuel st l).
Qed.

(** X2.  On a well-formed registry, deregistering a function that is not
    registered returns -1 and changes nothing; deregistering the function of
    the first entry (the one registered last) returns 0, takes exactly that
    entry off the list and frees its node. *)
Theorem X2_deregister_absent_or_first st l f :
  wf st l →
  (f ∉ funcs l → sudo_fatal_callback_deregister f st = Return st (-1)%Z) ∧
  (∀ a l', l = (a, f) :: l' →
     ∃ st', sudo_fatal_callback_deregister f st = Return st' 0%Z ∧
       wf st' l' ∧ heap st' = delete a (heap st) ∧
       log st' = log st ++ [EvDereg a f]).
Proof.
  intros Hwf. split; [by apply deregister_absent|].
  intros a l' ->. destruct (deregister_first st a f l' Hwf) as (nx & Ha & Hr & Hwf').
  by exists (unlinked_first a f nx st).
Qed.

(** X3.  On a well-formed registry, when malloc finds no memory for a
    function that is not yet registered, the register function returns -1
    and leaves the memory, the list and the log as they were. *)
Theorem X3_register_without_memory st l f :
  wf st l → f ∉ funcs l → malloc_ok (mallocs st) = false →
  ∃ st', sudo_fatal_callback_register f st = Return st' (-1)%Z ∧
    registry st' = registry st ∧ log st' = log st ∧ wf st' l.
Proof.
  intros Hwf Hf Hm. exists (refused st).
  split; [by eapply register_no_memory|]. split; [done|]. split; [done|].
  by apply wf_refused.
Qed.

(** X4.  In every turn of the drain the first node is off the list before
    its function runs: the code of the callback starts in a state whose
    registry is the rest of the list, with the block of the node still
    allocated; the block is freed after the callback has returned. *)
Theorem X4_entry_removed_before_invoked st a f l fuel :
  wf st ((a, f) :: l) →
  ∃ st1, do_cleanup (S fuel) st =
           (run_body (prog f);; free (Some a);; do_cleanup fuel) st1 ∧
    wf st1 l ∧ (a ∉ l.*1) ∧ is_Some (heap st1 !! a) ∧
    log st1 = log st ++ [EvCall a f].
Proof.
  intros Hwf. destruct (do_cleanup_turn st a f l fuel Hwf) as (nx & Ha & Hwf1 & Hrun).
  exists (add_log (EvCall a f) (set_callbacks nx st)).
  split; [done|]. split; [done|]. split; [|split; [by exists (Callback nx f)|done]].
  destruct Hwf as [Hc _]. apply chain_NoDup in Hc.
  rewrite fmap_cons in Hc. by apply NoDup_cons in Hc as [Hc _].
Qed.

(** ** The drain loop: order and memory *)

Lemma calls_below_snoc b evs e :
  calls_below b (evs ++ [e]) =
    calls_below b evs ++
    match e with
    | EvCall a f => if decide (a < b)%positive then [(a, f)] else []
    | _ => []
    end.
Proof.
  unfold calls_below. rewrite omap_app. f_equal.
  destruct e as [t s|a f|a f|a f]; simpl; try done. by destruct (decide _).
Qed.

Lemma kept_app evs l1 l2 : kept evs (l1 ++ l2) = kept evs l1 ++ kept evs l2.
Proof. apply filter_app. Qed.

Lemma kept_snoc evs e l :
  (∀ x, x ∈ l → e ≠ EvDereg x.1 x.2) → kept (evs ++ [e]) l = kept evs l.
Proof.
  unfold kept. induction l as [|x l IH]; intros Hl; [done|].
  assert (EvDereg x.1 x.2 ∉ evs ++ [e] ↔ EvDereg x.1 x.2 ∉ evs) as Hx.
  { rewrite elem_of_app, list_elem_of_singleton.
    assert (e ≠ EvDereg x.1 x.2) by (apply Hl, elem_of_cons; by left).
    naive_solver. }
  assert (filter (λ x, EvDereg x.1 x.2 ∉ evs ++ [e]) l
          = filter (λ x, EvDereg x.1 x.2 ∉ evs) l) as IH'.
  { apply IH. intros y Hy. apply Hl, elem_of_cons. by right. }
  destruct (decide (EvDereg x.1 x.2 ∉ evs)) as [Hk|Hk].
  - rewrite !filter_cons_True by (done || by apply Hx). by rewrite IH'.
  - rewrite !filter_cons_False by (done || by rewrite Hx). exact IH'.
Qed.

Lemma kept_all evs l :
  (∀ x, x ∈ l → EvDereg x.1 x.2 ∉ evs) → kept evs l = l.
Proof.
  unfold kept. induction l as [|x l IH]; intros Hl; [done|].
  rewrite filter_cons_True by (apply Hl, elem_of_cons; by left).
  f_equal. apply IH. intros y Hy. apply Hl, elem_of_cons. by right.
Qed.

Section ORDER.

(** The state and the registry at the start of the drain. *)
Variable st0 : state.
Variable l0 : list (positive * positive).
Hypothesis Hwf0 : wf st0 l0.

Lemma start_below a : a ∈ l0.*1 → (a < brk st0)%positive.
Proof.
  intros Ha. destruct Hwf0 as [Hc Hb].
  destruct (chain_live _ _ _ _ Hc Ha) as [c Hc']. by apply Hb in Hc'.
Qed.

Lemma swept_gone x :
  x ∈ l0.*1 ∨ (brk st0 ≤ x)%positive → swept st0 l0 x = None.
Proof.
  intros Hx. unfold swept. destruct (decide (x ∈ l0.*1)) as [|Hn]; [done|].
  destruct Hx as [Hx|Hx]; [done|].
  destruct (heap st0 !! x) eqn:E; [|done].
  destruct Hwf0 as [_ Hb]. apply Hb in E. simpl in E. lia.
Qed.

Lemma drain_order_start : drain_order st0 l0 st0 l0 [] [].
Proof.
  exists [], [], l0. split; [done|]. split; [done|].
  split; [intros x Hx; by apply elem_of_nil in Hx|]. split; [done|].
  split; [|split; [intros x Hx; by apply elem_of_nil in Hx|lia]].
  intros x Hx _. unfold swept. by rewrite decide_False.
Qed.

Lemma drain_order_push st l ex evs f :
  drain_order st0 l0 st l ex evs →
  drain_order st0 l0 (registered f st) ((brk st, f) :: l) ex
    (evs ++ [EvReg (brk st) f]).
Proof.
  intros (gone & new & old & H0 & Hl & Hnew & Hcalls & Hheap & Hex & Hbrk).
  exists gone, ((brk st, f) :: new), old.
  split; [done|]. split; [by rewrite Hl|]. split; [|split; [|split; [|split]]].
  - intros x [->|Hx]%elem_of_cons; [done|by apply Hnew].
  - rewrite calls_below_snoc, app_nil_r, kept_snoc; done.
  - intros x Hx Hxe. rewrite fmap_cons in Hx.
    apply not_elem_of_cons in Hx as [Hxb Hx]. simpl in Hxb.
    simpl. rewrite lookup_insert_ne by done. by apply Hheap.
  - done.
  - simpl. lia.
Qed.

Lemma drain_order_refused st l ex evs :
  drain_order st0 l0 st l ex evs → drain_order st0 l0 (refused st) l ex evs.
Proof. done. Qed.

(** Where the first node of the registry comes from: it is the first of
    the new nodes, or the first of what is left of the registry at the
    start. *)
Lemma drain_order_first (gone new old : list (positive * positive)) a f l :
  l0 = gone ++ old → (a, f) :: l = new ++ old →
  (∀ x, x ∈ new → (brk st0 ≤ x.1)%positive) →
  (∃ new', new = (a, f) :: new' ∧ l = new' ++ old ∧
     (brk st0 ≤ a)%positive ∧ ∀ x, x ∈ gone → x.1 ≠ a) ∨
  (∃ old', new = [] ∧ old = (a, f) :: old' ∧ l = old' ∧
     l0 = (gone ++ [(a, f)]) ++ old' ∧
     (a < brk st0)%positive ∧ ∀ x, x ∈ gone → x.1 ≠ a).
Proof.
  intros H0 Hl Hnew. destruct new as [|y new].
  - right. simpl in Hl. exists l. split; [done|]. split; [done|]. split; [done|].
    split; [by rewrite <- app_assoc, H0, <- Hl|].
    assert (a ∈ l0.*1) as Ha.
    { rewrite H0, <- Hl, fmap_app, fmap_cons. apply elem_of_app. right.
      apply elem_of_cons. by left. }
    split; [by apply start_below|].
    destruct Hwf0 as [Hc _]. apply chain_NoDup in Hc.
    rewrite H0, <- Hl, fmap_app, fmap_cons in Hc.
    apply NoDup_app in Hc as (_ & Hd & _).
    intros x Hx <-. apply (Hd x.1).
    + apply list_elem_of_fmap. by exists x.
    + apply elem_of_cons. by left.
  - left. simpl in Hl. injection Hl as <- ->. exists new.
    split; [done|]. split; [done|].
    assert ((brk st0 ≤ a)%positive) as Ha.
    { apply (Hnew (a, f)), elem_of_cons. by left. }
    split; [done|]. intros x Hx <-.
    assert ((x.1 < brk st0)%positive); [|lia].
    apply start_below. rewrite H0, fmap_app. apply elem_of_app. left.
    apply list_elem_of_fmap. by exists x.
Qed.

(** The drain takes the first node off the list to invoke it. *)
Lemma drain_order_call st a f l evs nx :
  drain_inv (log st0) l0 st ((a, f) :: l) evs →
  drain_order st0 l0 st ((a, f) :: l) [] evs →
  drain_order st0 l0 (add_log (EvCall a f) (set_callbacks nx st)) l [a]
    (evs ++ [EvCall a f]).
Proof.
  intros (_ & _ & Hpend & _)
    (gone & new & old & H0 & Hl & Hnew & Hcalls & Hheap & Hex & Hbrk).
  destruct (Hpend a f f) as [_ Hnd]; [apply elem_of_cons; by left|].
  assert (∀ x, x ∉ l.*1 → x ∉ [a] →
            heap (add_log (EvCall a f) (set_callbacks nx st)) !! x
            = swept st0 l0 x) as Hheap'.
  { intros x Hx Hxa. simpl. apply Hheap; [|apply not_elem_of_nil].
    rewrite fmap_cons. apply not_elem_of_cons. split; [|done].
    simpl. intros ->. apply Hxa, elem_of_cons. by left. }
  destruct (drain_order_first gone new old a f l H0 Hl Hnew)
    as [(new' & -> & Hl' & Ha & Hg)|(old' & -> & -> & Hl' & H0' & Ha & Hg)].
  - exists gone, new', old. split; [done|]. split; [done|].
    split; [|split; [|split; [done|split; [|done]]]].
    + intros x Hx. apply Hnew, elem_of_cons. by right.
    + rewrite calls_below_snoc, decide_False, app_nil_r, kept_snoc by (done || lia).
      done.
    + intros x ->%list_elem_of_singleton. by right.
  - exists (gone ++ [(a, f)]), [], old'. split; [done|]. split; [by rewrite Hl'|].
    split; [|split; [|split; [done|split; [|done]]]].
    + intros x Hx. by apply elem_of_nil in Hx.
    + rewrite calls_below_snoc, decide_True, kept_app, kept_snoc by done.
      rewrite Hcalls. f_equal. unfold kept.
      rewrite filter_cons_True; [done|]. simpl.
      rewrite elem_of_app, list_elem_of_singleton. naive_solver.
    + intros x ->%list_elem_of_singleton. left.
      rewrite H0', !fmap_app, fmap_cons. apply elem_of_app. left.
      apply elem_of_app. right. apply elem_of_cons. by left.
Qed.

(** A callback has the first node taken off the list and freed by the
    deregister function. *)
Lemma drain_order_dereg st a f l ex evs nx :
  drain_order st0 l0 st ((a, f) :: l) ex evs →
  drain_order st0 l0 (unlinked_first a f nx st) l ex (evs ++ [EvDereg a f]).
Proof.
  intros (gone & new & old & H0 & Hl & Hnew & Hcalls & Hheap & Hex & Hbrk).
  destruct (drain_order_first gone new old a f l H0 Hl Hnew)
    as [(new' & -> & Hl' & Ha & Hg)|(old' & -> & -> & Hl' & H0' & Ha & Hg)].
  - exists gone, new', old. split; [done|]. split; [done|].
    split; [|split; [|split; [|split; [done|done]]]].
    + intros x Hx. apply Hnew, elem_of_cons. by right.
    + rewrite calls_below_snoc, app_nil_r, kept_snoc; [done|].
      intros x Hx [= E _]. by apply (Hg x Hx).
    + intros x Hx Hxe. simpl. destruct (decide (x = a)) as [->|Hxa].
      * rewrite lookup_delete_eq. symmetry. apply swept_gone. by right.
      * rewrite lookup_delete_ne by done. apply Hheap; [|done].
        rewrite fmap_cons. by apply not_elem_of_cons.
  - exists (gone ++ [(a, f)]), [], old'. split; [done|]. split; [by rewrite Hl'|].
    split; [|split; [|split; [|split; [done|done]]]].
    + intros x Hx. by apply elem_of_nil in Hx.
    + rewrite calls_below_snoc, app_nil_r, kept_app, kept_snoc.
      2:{ intros x Hx [= E _]. by apply (Hg x Hx). }
      rewrite Hcalls. unfold kept at 3.
      rewrite filter_cons_False; [by rewrite filter_nil, app_nil_r|]. simpl.
      intros Hn. apply Hn. rewrite elem_of_app, list_elem_of_singleton. by right.
    + intros x Hx Hxe. simpl. destruct (decide (x = a)) as [->|Hxa].
      * rewrite lookup_delete_eq. symmetry. apply swept_gone. left.
        rewrite H0', !fmap_app, fmap_cons. apply elem_of_app. left.
        apply elem_of_app. right. apply elem_of_cons. by left.
      * rewrite lookup_delete_ne by done. apply Hheap; [|done].
        rewrite fmap_cons. by apply not_elem_of_cons.
Qed.

(** The drain frees the node whose callback has returned. *)
Lemma drain_order_free st l evs a :
  drain_order st0 l0 st l [a] evs →
  drain_order st0 l0 (set_heap (delete a (heap st)) st) l [] evs.
Proof.
  intros (gone & new & old & H0 & Hl & Hnew & Hcalls & Hheap & Hex & Hbrk).
  exists gone, new, old. split; [done|]. split; [done|]. split; [done|].
  split; [done|]. split; [|split; [|done]].
  - intros x Hx _. simpl. destruct (decide (x = a)) as [->|Hxa].
    + rewrite lookup_delete_eq. symmetry. apply swept_gone.
      apply Hex, elem_of_cons. by left.
    + rewrite lookup_delete_ne by done. apply Hheap; [done|].
      by intros ->%list_elem_of_singleton.
  - intros x Hx. by apply elem_of_nil in Hx.
Qed.

Lemma register_orders st l ex evs f st' r :
  drain_inv (log st0) l0 st l evs → drain_order st0 l0 st l ex evs →
  sudo_fatal_callback_register f st = Return st' r →
  ∃ l' evs', drain_inv (log st0) l0 st' l' (evs ++ evs') ∧
    drain_order st0 l0 st' l' ex (evs ++ evs').
Proof.
  intros Hinv Hord. pose proof Hinv as (Hwf & _).
  destruct (decide (f ∈ funcs l)) as [Hin|Hnin].
  - rewrite (register_duplicate st l f Hwf Hin). intros [= <- <-].
    exists l, []. by rewrite app_nil_r.
  - destruct (malloc_ok (mallocs st)) eqn:Hm.
    + rewrite (register_new st l f Hwf Hnin Hm). intros [= <- <-].
      exists ((brk st, f) :: l), [EvReg (brk st) f].
      split; [by apply drain_inv_push|by apply drain_order_push].
    + rewrite (register_no_memory st l f Hwf Hnin Hm). intros [= <- <-].
      exists l, []. rewrite app_nil_r.
      split; [by apply drain_inv_refused|by apply drain_order_refused].
Qed.

Lemma deregister_orders st l ex evs f st' r :
  drain_inv (log st0) l0 st l evs → drain_order st0 l0 st l ex evs →
  sudo_fatal_callback_deregister f st = Return st' r →
  (∃ l' evs', drain_inv (log st0) l0 st' l' (evs ++ evs') ∧
     drain_order st0 l0 st' l' ex (evs ++ evs')) ∨ doomed st'.
Proof.
  intros Hinv Hord. pose proof Hinv as (Hwf & _).
  destruct (decide (f ∈ funcs l)) as [Hin|Hnin].
  - destruct (split_at_function l f Hin) as (l1 & a & l2 & -> & Hn1).
    destruct l1 as [|x l1].
    + rewrite app_nil_l in Hwf, Hinv, Hord.
      destruct (deregister_first st a f l2 Hwf) as (nx & Ha & -> & Hwf').
      intros [= <- <-]. left. exists l2, [EvDereg a f]. split.
      * apply (drain_inv_take _ _ st _ a f l2 evs); [done|by right|done|done|done].
      * by apply drain_order_dereg.
    + destruct (deregister_not_first st (x :: l1) a f l2 Hwf) as [-> Hd]; [done|done|].
      destruct l2; [done|]. intros [= <- <-]. by right.
  - rewrite (deregister_absent st l f Hwf Hnin). intros [= <- <-].
    left. exists l, []. by rewrite app_nil_r.
Qed.

Lemma run_body_orders b st l ex evs st' :
  drain_inv (log st0) l0 st l evs → drain_order st0 l0 st l ex evs →
  run_body b st = Return st' tt →
  (∃ l' evs', drain_inv (log st0) l0 st' l' (evs ++ evs') ∧
     drain_order st0 l0 st' l' ex (evs ++ evs')) ∨ doomed st'.
Proof.
  revert st l evs. induction b as [|f k IH|f k IH]; intros st l evs Hinv Hord; simpl.
  - intros [= <-]. left. exists l, []. by rewrite app_nil_r.
  - intros (st1 & r & Hr & Hk)%bind_inv_Return.
    destruct (register_orders _ _ _ _ _ _ _ Hinv Hord Hr) as (l1 & e1 & Hinv1 & Hord1).
    destruct (IH r _ _ _ Hinv1 Hord1 Hk) as [(l2 & e2 & Hinv2)|Hd]; [left|by right].
    exists l2, (e1 ++ e2). by rewrite app_assoc.
  - intros (st1 & r & Hr & Hk)%bind_inv_Return.
    destruct (deregister_orders _ _ _ _ _ _ _ Hinv Hord Hr)
      as [(l1 & e1 & Hinv1 & Hord1)|Hd].
    + destruct (IH r _ _ _ Hinv1 Hord1 Hk) as [(l2 & e2 & Hinv2)|Hd]; [left|by right].
      exists l2, (e1 ++ e2). by rewrite app_assoc.
    + right. by eapply run_body_doomed.
Qed.

(** A drain that returns has kept both invariants and emptied the list. *)
Lemma do_cleanup_orders fuel st l evs st' :
  drain_inv (log st0) l0 st l evs → drain_order st0 l0 st l [] evs →
  do_cleanup fuel st = Return st' tt →
  ∃ evs', drain_inv (log st0) l0 st' [] (evs ++ evs') ∧
    drain_order st0 l0 st' [] [] (evs ++ evs').
Proof.
  revert st l evs. induction fuel as [|fuel IH]; intros st l evs Hinv Hord; [done|].
  destruct l as [|[a f] l].
  - pose proof Hinv as ([Hc _] & _). apply chain_nil in Hc.
    rewrite do_cleanup_empty by done. intros [= <-].
    exists []. by rewrite app_nil_r.
  - pose proof Hinv as ([Hc Hb] & _).
    apply chain_cons in Hc as (Hhd & nx & Ha & Hc).
    rewrite (do_cleanup_unfold st a nx f fuel Hhd Ha).
    intros (st1 & [] & Hrun & Hk)%bind_inv_Return.
    apply bind_inv_Return in Hk as (st2 & [] & Hfree & Hk).
    assert (drain_inv (log st0) l0 (add_log (EvCall a f) (set_callbacks nx st)) l
              (evs ++ [EvCall a f])) as Hinv1.
    { apply (drain_inv_take _ _ st _ a f l evs); [done|by left| |done|done].
      by split. }
    pose proof (drain_order_call st a f l evs nx Hinv Hord) as Hord1.
    unfold free in Hfree. destruct (heap st1 !! a) eqn:Ha1; [|done].
    injection Hfree as <-.
    destruct (run_body_orders _ _ _ _ _ _ Hinv1 Hord1 Hrun)
      as [(l2 & e2 & Hinv2 & Hord2)|Hd].
    + assert (a ∉ l2.*1) as Hnin.
      { intros ([a' g] & -> & Hin)%list_elem_of_fmap. simpl in *.
        destruct Hinv2 as (_ & _ & Hpend & _).
        destruct (Hpend a' g f Hin) as [Hca _]. apply Hca.
        rewrite !elem_of_app, list_elem_of_singleton. naive_solver. }
      destruct (IH _ _ _ (drain_inv_free _ _ _ _ _ a Hinv2 Hnin)
                  (drain_order_free _ _ _ a Hord2) Hk) as (e3 & Hinv3 & Hord3).
      exists ([EvCall a f] ++ e2 ++ e3). by rewrite !app_assoc.
    + by apply (do_cleanup_doomed _ _ _ (doomed_delete st1 a Hd)) in Hk.
Qed.

End ORDER.

(** What a drain that returns has done, as to order and memory. *)
Lemma do_cleanup_in_order fuel st l st' :
  wf st l → do_cleanup fuel st = Return st' tt →
  ∃ evs, log st' = log st ++ evs ∧
    (∀ a f, (a, f) ∈ l → settled a f evs) ∧
    calls_below (brk st) evs = kept evs l ∧
    (∀ x, heap st' !! x = swept st l x).
Proof.
  intros Hwf Hrun.
  destruct (do_cleanup_orders st l Hwf fuel st l [] st')
    as (evs & ([Hc _] & Hlog & _ & Hknown & _) & Hord);
    [by apply drain_inv_start|by apply drain_order_start|done|].
  exists evs. split; [done|]. split.
  { intros a f Hin. destruct (Hknown a f) as [Hn|Hs]; [by left| |done].
    by apply elem_of_nil in Hn. }
  destruct Hord as (gone & new & old & H0 & Hl & _ & Hcalls & Hheap & _).
  symmetry in Hl. apply app_eq_nil in Hl as [-> ->].
  rewrite app_nil_r in H0. subst gone. split; [done|].
  intros x. apply Hheap; apply not_elem_of_nil.
Qed.

(** ** More on the register and deregister functions *)

(** X5.  On a well-formed registry the register function returns 0 or -1,
    and 0 exactly when the function was not registered and malloc found
    memory.  After 0 the function is held by a new node, first on the list,
    in front of the entries there were, whose blocks are as before; after -1
    the memory, the list and the log are as before. *)
Theorem X5_register_result st l f :
  wf st l →
  ∃ st' r, sudo_fatal_callback_register f st = Return st' r ∧
    (r = 0%Z ∨ r = (-1)%Z) ∧
    (r = 0%Z ↔ f ∉ funcs l ∧ malloc_ok (mallocs st) = true) ∧
    (r = 0%Z →
       wf st' ((brk st, f) :: l) ∧
       heap st !! brk st = None ∧
       heap st' = <[brk st := Callback (callbacks st) f]> (heap st) ∧
       log st' = log st ++ [EvReg (brk st) f]) ∧
    (r = (-1)%Z →
       wf st' l ∧ registry st' = registry st ∧ log st' = log st).
Proof.
  intros Hwf. destruct (decide (f ∈ funcs l)) as [Hin|Hnin].
  - exists st, (-1)%Z. split; [by eapply register_duplicate|].
    split; [by right|]. split; [|split; [done|done]].
    split; [done|]. by intros [? _].
  - destruct (malloc_ok (mallocs st)) eqn:Hm.
    + exists (registered f st), 0%Z. split; [by eapply register_new|].
      split; [by left|]. split; [done|]. split; [|done].
      intros _. split; [by apply wf_registered|].
      split; [by eapply wf_fresh|done].
    + exists (refused st), (-1)%Z. split; [by eapply register_no_memory|].
      split; [by right|]. split; [|split; [done|]].
      * split; [done|]. by intros [_ ?].
      * intros _. split; [by apply wf_refused|done].
Qed.

Lemma deregister_all_app fs1 fs2 st :
  deregister_all (fs1 ++ fs2) st
  = (deregister_all fs1;; deregister_all fs2) st.
Proof.
  revert st. induction fs1 as [|f fs1 IH]; intros st; [done|].
  simpl. unfold mbind at 1 3, M_bind. unfold mbind at 1, M_bind.
  by destruct (sudo_fatal_callback_deregister f st).
Qed.

(** Functions registered one after the other and deregistered in the
    opposite order: every deregistration finds its function in the first
    node. *)
Lemma register_deregister_all fs :
  (∀ n, malloc_ok n = true) → NoDup fs →
  ∀ st l, wf st l → (∀ f, f ∈ fs → f ∉ funcs l) →
  ∃ st1 st2,
    register_all fs st = Return st1 tt ∧
    deregister_all (reverse fs) st1 = Return st2 tt ∧
    registry st2 = registry st ∧ wf st2 l.
Proof.
  intros Hm. induction fs as [|f fs IH]; intros Hnd st l Hwf Hnew.
  - by exists st, st.
  - apply NoDup_cons in Hnd as [Hf Hnd].
    pose proof (wf_fresh _ _ Hwf) as Hfresh.
    destruct (IH Hnd (registered f st) ((brk st, f) :: l))
      as (st1 & st2 & Hr & Hd & Hreg & Hwf2).
    { by apply wf_registered. }
    { intros g Hg. unfold funcs. rewrite fmap_cons. simpl.
      apply not_elem_of_cons. split.
      - by intros ->.
      - apply Hnew, elem_of_cons. by right. }
    injection Hreg as Hh Hc.
    destruct (deregister_first st2 (brk st) f l Hwf2) as (nx & Ha & Hdf & Hwf3).
    exists st1, (unlinked_first (brk st) f nx st2).
    split; [|split; [|split]].
    + simpl. rewrite (bind_Return _ _ _ (registered f st) 0%Z); [done|].
      apply (register_new st l); [done| |done].
      apply Hnew, elem_of_cons. by left.
    + rewrite reverse_cons, deregister_all_app.
      rewrite (bind_Return _ _ _ _ _ Hd). simpl.
      by rewrite (bind_Return _ _ _ _ _ Hdf).
    + unfold registry. simpl. rewrite Hh in Ha |- *. simpl in Ha |- *.
      rewrite lookup_insert_eq in Ha. injection Ha as <-.
      by rewrite delete_insert_eq, delete_id.
    + done.
Qed.

(** X6.  Functions that are registered one after the other and then
    deregistered in the opposite order, last registered first, are all
    removed: the calls all return, and the memory and the list are back as
    they were before the first registration. *)
Theorem X6_deregister_in_reverse_order fs st l :
  (∀ n, malloc_ok n = true) → NoDup fs →
  wf st l → (∀ f, f ∈ fs → f ∉ funcs l) →
  ∃ st', (register_all fs;; deregister_all (reverse fs)) st = Return st' tt ∧
    registry st' = registry st ∧ wf st' l.
Proof.
  intros Hm Hnd Hwf Hnew.
  destruct (register_deregister_all fs Hm Hnd st l Hwf Hnew)
    as (st1 & st2 & Hr & Hd & Hreg & Hwf2).
  exists st2. split; [|done]. by rewrite (bind_Return _ _ _ _ _ Hr).
Qed.

(** The drain of a list that leads to a freed node, when the callbacks on
    the way leave the registry alone: they are invoked, then the freed node
    is read. *)
Lemma do_cleanup_dangling l :
  Forall (λ x, prog x.2 = Done) l →
  ∀ st d fuel,
    path (heap st) (callbacks st) l (Some d) → heap st !! d = None →
    length l < fuel →
    do_cleanup fuel st = Undefined.
Proof.
  induction l as [|[a f] l IH]; intros Hp st d fuel Hpath Hd Hfuel.
  - destruct fuel as [|fuel]; [simpl in Hfuel; lia|].
    apply path_nil in Hpath. simpl. run_prims.
    by repeat (first [rewrite Hpath | rewrite Hd]; simpl).
  - destruct fuel as [|fuel]; [simpl in Hfuel; lia|]. simpl in Hfuel.
    apply Forall_cons in Hp as [Hf Hp]. simpl in Hf.
    pose proof (path_NoDup _ _ _ _ Hpath Hd) as Hnd.
    rewrite fmap_cons in Hnd. apply NoDup_cons in Hnd as [Hal _].
    apply path_cons in Hpath as (Hhd & nx & Ha & Hpath).
    rewrite (do_cleanup_unfold st a nx f fuel Hhd Ha).
    rewrite Hf. simpl. unfold mbind at 1, M_bind, mret, M_ret.
    unfold mbind at 1, M_bind, free. simpl. rewrite Ha.
    apply (IH Hp _ d); [| |lia]; simpl.
    + apply (path_frame (heap st)); [done|].
      intros b Hin. apply lookup_delete_ne. by intros <-.
    + by apply lookup_delete_None; right.
Qed.

(** X7.  Deregistering a function held by an entry that is not the first
    one.  When that entry is the last one the call reads through the null
    pointer.  Otherwise it returns 0 having freed the block of the entry
    without taking it off the list: the list head and the other blocks are as
    before, so that the list now leads into the freed block.  From then on a
    registration or deregistration of a function not held by an entry in
    front of that block reads freed memory, no drain returns (it reads freed
    memory when the callbacks in front leave the registry alone), and no call
    of a fatal function gets as far as [exit]. *)
Theorem X7_deregister_entry_not_first st l1 a f l2 :
  wf st (l1 ++ (a, f) :: l2) → l1 ≠ [] → f ∉ funcs l1 →
  (l2 = [] → sudo_fatal_callback_deregister f st = Undefined) ∧
  (l2 ≠ [] →
     ∃ st', sudo_fatal_callback_deregister f st = Return st' 0%Z ∧
       heap st' = delete a (heap st) ∧ callbacks st' = callbacks st ∧
       path (heap st') (callbacks st') l1 (Some a) ∧
       (∀ g, g ∉ funcs l1 →
          sudo_fatal_callback_register g st' = Undefined ∧
          sudo_fatal_callback_deregister g st' = Undefined) ∧
       (∀ fuel st'', do_cleanup fuel st' ≠ Return st'' tt) ∧
       (Forall (λ x, prog x.2 = Done) l1 →
          ∀ fuel, length l1 < fuel → do_cleanup fuel st' = Undefined) ∧
       (∀ e fuel errno fmt ap st'' c,
          call_fatal e fuel errno fmt ap st' ≠ Exit st'' c)).
Proof.
  intros Hwf Hne Hf.
  destruct (deregister_not_first st l1 a f l2 Hwf Hne Hf) as [Hrun Hdoom].
  split; [by intros ->|]. intros Hl2.
  destruct l2 as [|y l2]; [done|]. clear Hl2.
  exists (freed_in_place a f st). split; [done|]. split; [done|]. split; [done|].
  destruct Hwf as [Hc Hb]. pose proof (chain_NoDup _ _ _ Hc) as Hnd.
  apply path_app in Hc as (r & H1 & (-> & nx & Ha & H2)%path_cons).
  rewrite fmap_app, fmap_cons in Hnd. apply NoDup_app in Hnd as (_ & Hd & _).
  assert (path (heap (freed_in_place a f st)) (callbacks (freed_in_place a f st))
            l1 (Some a)) as Hpath.
  { simpl. apply (path_frame (heap st)); [done|].
    intros b Hin. apply lookup_delete_ne. intros <-.
    apply (Hd a Hin). apply elem_of_cons. by left. }
  assert (heap (freed_in_place a f st) !! a = None) as Hfreed
    by apply lookup_delete_eq.
  pose proof (path_length _ _ _ _ Hpath Hfreed) as Hlen.
  split; [done|]. split; [|split; [|split]].
  - intros g Hg. split.
    + unfold sudo_fatal_callback_register.
      unfold mbind at 1 2 3, M_bind, get, SLIST_FIRST.
      rewrite (register_scan_path _ _ l1 (Some a)); [|done|done|lia].
      by rewrite bool_decide_eq_false_2.
    + unfold sudo_fatal_callback_deregister. unfold mbind, M_bind, get.
      rewrite (deregister_scan_absent _ g l1 HeadLink
                 (callbacks (freed_in_place a f st)) (Some a));
        [done|done|done|done|done|lia].
  - intros fuel st''. by apply do_cleanup_doomed.
  - intros Hp fuel Hfuel. by apply (do_cleanup_dangling l1 Hp _ a).
  - intros e fuel errno fmt ap st'' c.
    destruct (call_fatal_prints e errno fmt ap) as [line ->].
    intros [_ Hret]%cleanup_exit_Exit.
    apply do_cleanup_doomed in Hret; [done|].
    destruct Hdoom as (l & d & Hp & Hdd). by exists l, d.
Qed.

(** X10.  A callback whose first act is a call of the deregister function,
    run by the drain when its entry is first on a well-formed registry.  Its
    own node is off the list by then, so: for a function that no other entry
    holds (its own, for one) the call returns -1 and changes nothing; for the
    function of the entry next in line the call returns 0 and that entry is
    removed and freed, never to be invoked; for a function held by an entry
    further down the list the drain does not return. *)
Theorem X10_deregister_inside_callback st a f l g k fuel :
  wf st ((a, f) :: l) → prog f = CallDeregister g k →
  ∃ st1, wf st1 l ∧ log st1 = log st ++ [EvCall a f] ∧
    (g ∉ funcs l →
       do_cleanup (S fuel) st =
         (run_body (k (-1)%Z);; free (Some a);; do_cleanup fuel) st1) ∧
    (∀ b l', l = (b, g) :: l' →
       ∃ st2, do_cleanup (S fuel) st =
                (run_body (k 0%Z);; free (Some a);; do_cleanup fuel) st2 ∧
         wf st2 l' ∧ heap st2 = delete b (heap st1) ∧
         log st2 = log st1 ++ [EvDereg b g]) ∧
    (∀ l1 b l2, l = l1 ++ (b, g) :: l2 → l1 ≠ [] → g ∉ funcs l1 →
       ∀ st', do_cleanup (S fuel) st ≠ Return st' tt).
Proof.
  intros Hwf Hf.
  destruct (do_cleanup_turn st a f l fuel Hwf) as (nx & Ha & Hwf1 & Hrun).
  set (st1 := add_log (EvCall a f) (set_callbacks nx st)) in *.
  exists st1. split; [done|]. split; [done|].
  rewrite Hrun, Hf. simpl. split; [|split].
  - intros Hg. unfold mbind at 1 5, M_bind. unfold mbind at 1, M_bind.
    by rewrite (deregister_absent st1 l g Hwf1 Hg).
  - intros b l' ->.
    destruct (deregister_first st1 b g l' Hwf1) as (nxb & Hb & Hd & Hwf2).
    exists (unlinked_first b g nxb st1). split; [|done].
    unfold mbind at 1 5, M_bind. unfold mbind at 1, M_bind. by rewrite Hd.
  - intros l1 b l2 -> Hne Hg st'.
    destruct (deregister_not_first st1 l1 b g l2 Hwf1 Hne Hg) as [Hd Hdoom].
    intros (st2 & [] & Hbody & Hk)%bind_inv_Return.
    apply bind_inv_Return in Hbody as (st3 & r & Hr & Hbody).
    rewrite Hd in Hr. destruct l2 as [|y l2]; [done|]. injection Hr as <- <-.
    apply run_body_doomed in Hbody; [|done].
    apply bind_inv_Return in Hk as (st4 & [] & Hfree & Hk).
    unfold free in Hfree. destruct (heap st2 !! a); [|done].
    injection Hfree as <-.
    by apply (do_cleanup_doomed _ _ _ (doomed_delete st2 a Hbody)) in Hk.
Qed.

(** X9.  Whatever the process has done so far (registrations, warnings,
    drains that returned, and deregistrations that named a function not
    registered or the one of the first entry), its registry is a well-formed
    list: the list head leads through live nodes, each met once, to the null
    pointer, and no two nodes hold the same function. *)
Theorem X9_registry_stays_well_formed st :
  reachable st →
  ∃ l, wf st l ∧ entries_of st = l ∧ NoDup l.*1 ∧ NoDup (funcs l).
Proof.
  assert (∀ st l, wf st l → NoDup (funcs l) →
            ∃ l, wf st l ∧ entries_of st = l ∧ NoDup l.*1 ∧ NoDup (funcs l))
    as Hpack.
  { intros s l Hwf Hnd. exists l. split; [done|].
    split; [by apply entries_of_wf|]. split; [|done].
    destruct Hwf as [Hc _]. by apply chain_NoDup in Hc. }
  induction 1 as [|st f st' r _ (l & Hwf & He & _ & Hnd) Hrun
                  |st f st' r _ (l & Hwf & He & _ & Hnd) Hsafe Hrun
                  |st e errno fmt ap st' _ (l & Hwf & He & _ & Hnd) Hrun
                  |st fuel st' _ (l & Hwf & He & _ & Hnd) Hrun].
  - apply (Hpack _ []); [|constructor].
    split; [by apply chain_nil|apply map_Forall_empty].
  - destruct (decide (f ∈ funcs l)) as [Hin|Hnin].
    + rewrite (register_duplicate st l f Hwf Hin) in Hrun.
      injection Hrun as <- <-. by apply (Hpack _ l).
    + destruct (malloc_ok (mallocs st)) eqn:Hm.
      * rewrite (register_new st l f Hwf Hnin Hm) in Hrun.
        injection Hrun as <- <-. apply (Hpack _ ((brk st, f) :: l)).
        { by apply wf_registered. }
        unfold funcs. rewrite fmap_cons. by apply NoDup_cons.
      * rewrite (register_no_memory st l f Hwf Hnin Hm) in Hrun.
        injection Hrun as <- <-. apply (Hpack _ l); [by apply wf_refused|done].
  - rewrite He in Hsafe. destruct Hsafe as [Hnin|Hhd].
    + rewrite (deregister_absent st l f Hwf Hnin) in Hrun.
      injection Hrun as <- <-. by apply (Hpack _ l).
    + destruct l as [|[a g] l]; [done|]. injection Hhd as ->.
      destruct (deregister_first st a f l Hwf) as (nx & _ & Hd & Hwf').
      rewrite Hd in Hrun. injection Hrun as <- <-. apply (Hpack _ l); [done|].
      unfold funcs in Hnd. rewrite fmap_cons in Hnd.
      by apply NoDup_cons in Hnd as [_ Hnd].
  - destruct (call_warn_prints e errno fmt ap) as [line Hw].
    rewrite Hw in Hrun. injection Hrun as <-.
    apply (Hpack _ l); [|done]. by destruct Hwf.
  - destruct (do_cleanup_keeps (log st) l fuel st l [] st')
      as (evs & Hwf' & _); [by apply drain_inv_start|done|].
    apply (Hpack _ []); [done|constructor].
Qed.

Lemma remove_dups_cons (x : positive) l :
  remove_dups (x :: l)
  = if decide (x ∈ l) then remove_dups l else x :: remove_dups l.
Proof. reflexivity. Qed.

Lemma remove_dups_id (l : list positive) : NoDup l → remove_dups l = l.
Proof.
  induction 1 as [|x l Hx _ IH]; [done|].
  rewrite remove_dups_cons, decide_False by done. by rewrite IH.
Qed.

Lemma remove_dups_skip (l1 l2 : list positive) x :
  x ∈ l2 → remove_dups (l1 ++ x :: l2) = remove_dups (l1 ++ l2).
Proof.
  intros Hx. induction l1 as [|y l1 IH].
  - by rewrite !app_nil_l, remove_dups_cons, decide_True.
  - rewrite <- !app_comm_cons, !remove_dups_cons, IH.
    destruct (decide (y ∈ l1 ++ x :: l2)) as [Hy|Hy].
    + rewrite decide_True; [done|].
      rewrite elem_of_app, elem_of_cons in Hy. rewrite elem_of_app.
      destruct Hy as [Hy|[->|Hy]]; auto.
    + rewrite decide_False; [done|]. intros Hy'. apply Hy.
      rewrite elem_of_app, elem_of_cons. rewrite elem_of_app in Hy'.
      destruct Hy' as [Hy'|Hy']; auto.
Qed.

Lemma remove_dups_length (l : list positive) :
  length (remove_dups l) ≤ length l.
Proof.
  induction l as [|x l IH]; [done|]. rewrite remove_dups_cons.
  destruct (decide (x ∈ l)); simpl; lia.
Qed.

(** Registering any functions, one after the other, on a registry that holds
    no function twice: those already registered, and those that come again,
    are turned away. *)
Lemma register_all_any fs :
  (∀ n, malloc_ok n = true) →
  ∀ st l, wf st l → NoDup (funcs l) →
  ∃ st' l', register_all fs st = Return st' tt ∧
    wf st' l' ∧ funcs l' = remove_dups (reverse fs ++ funcs l) ∧
    called (log st') = called (log st).
Proof.
  intros Hm. induction fs as [|f fs IH]; intros st l Hwf Hnd.
  - exists st, l. split; [done|]. split; [done|]. split; [|done].
    simpl. by rewrite remove_dups_id.
  - destruct (decide (f ∈ funcs l)) as [Hin|Hnin].
    + destruct (IH st l Hwf Hnd) as (st' & l' & Hr & Hwf' & Hfs & Hlog).
      exists st', l'. split; [|split; [done|split; [|done]]].
      * simpl. by rewrite (bind_Return _ _ _ _ _ (register_duplicate st l f Hwf Hin)).
      * rewrite Hfs, reverse_cons, <- app_assoc.
        change ([f] ++ funcs l) with (f :: funcs l). by rewrite remove_dups_skip.
    + destruct (IH (registered f st) ((brk st, f) :: l))
        as (st' & l' & Hr & Hwf' & Hfs & Hlog).
      { by apply wf_registered. }
      { unfold funcs. rewrite fmap_cons. by apply NoDup_cons. }
      exists st', l'. split; [|split; [done|split]].
      * simpl.
        by rewrite (bind_Return _ _ _ _ _ (register_new st l f Hwf Hnin (Hm _))).
      * by rewrite Hfs, reverse_cons, <- app_assoc.
      * rewrite Hlog. simpl. by rewrite called_app, app_nil_r.
Qed.

(** X15.  Functions registered one after the other from the empty registry,
    the same function any number of times (malloc never failing): only the
    first registration of a function counts.  The list holds each function
    once, in the reverse of the order of the first registrations, and when
    the callbacks leave the registry alone the drain invokes them in that
    order; registering a function again does not move it to the front. *)
Theorem X15_repeated_registrations fs :
  (∀ n, malloc_ok n = true) →
  ∃ st' l, register_all fs initial_state = Return st' tt ∧
    wf st' l ∧ funcs l = remove_dups (reverse fs) ∧
    (Forall (λ f, prog f = Done) fs →
       ∃ st'', do_cleanup (S (length fs)) st' = Return st'' tt ∧
         callbacks st'' = None ∧
         called (log st'') = remove_dups (reverse fs)).
Proof.
  intros Hm.
  destruct (register_all_any fs Hm initial_state [])
    as (st' & l & Hr & Hwf & Hfs & Hlog).
  { split; [by apply chain_nil|apply map_Forall_empty]. }
  { constructor. }
  simpl in Hfs. rewrite app_nil_r in Hfs.
  exists st', l. split; [done|]. split; [done|]. split; [done|].
  intros Hp.
  destruct (do_cleanup_passive l) with (st := st') (fuel := S (length fs))
    as (st'' & Hrun & Hhd & Hlog'); [|done| |].
  - apply Forall_forall. intros [a f] Hx. simpl.
    rewrite Forall_forall in Hp. apply Hp.
    rewrite <- elem_of_reverse, <- elem_of_remove_dups, <- Hfs.
    apply list_elem_of_fmap. by exists (a, f).
  - assert (length l = length (remove_dups (reverse fs))) as ->.
    { rewrite <- Hfs. unfold funcs. by rewrite length_fmap. }
    pose proof (remove_dups_length (reverse fs)) as Hle.
    rewrite length_reverse in Hle. lia.
  - exists st''. split; [done|]. split; [done|].
    rewrite Hlog', called_app, Hlog, called_calls. done.
Qed.

(** X12.  Deregistering the function of the first entry and registering it
    again (malloc finding memory) puts it back in first place: the functions
    on the list and their order are as before, in front of the same entries;
    the node is a new one, the old one has been freed. *)
Theorem X12_deregister_then_register st a f l :
  wf st ((a, f) :: l) → f ∉ funcs l → malloc_ok (mallocs st) = true →
  ∃ st', (sudo_fatal_callback_deregister f;; sudo_fatal_callback_register f) st
           = Return st' 0%Z ∧
    wf st' ((brk st, f) :: l) ∧ a ≠ brk st ∧ heap st' !! a = None.
Proof.
  intros Hwf Hf Hm.
  destruct (deregister_first st a f l Hwf) as (nx & Ha & Hd & Hwf1).
  set (st1 := unlinked_first a f nx st) in *.
  exists (registered f st1). split; [|split; [exact (wf_registered st1 l f Hwf1)|]].
  - rewrite (bind_Return _ _ _ _ _ Hd). by apply (register_new st1 l).
  - destruct Hwf as [_ Hb]. apply Hb in Ha. simpl in Ha.
    assert (a ≠ brk st) as Hne by lia. split; [done|]. simpl.
    rewrite lookup_insert_ne by done. apply lookup_delete_eq.
Qed.

(** X14.  A callback whose first act is a call of the register function, run
    by the drain when its entry is first on a well-formed registry.  For a
    function that an entry still on the list holds, the call returns -1 and
    changes nothing.  For any other function (its own included: its node is
    off the list by then) the call returns 0 when malloc finds memory, and
    the new entry is first on the list: when the callback does nothing more,
    the function just registered is the next one invoked, ahead of the
    entries that were waiting.  Without memory the call returns -1 and the
    registry is as it was. *)
Theorem X14_register_inside_callback st a f l g k fuel :
  wf st ((a, f) :: l) → prog f = CallRegister g k →
  ∃ st1, wf st1 l ∧ log st1 = log st ++ [EvCall a f] ∧
    (g ∈ funcs l →
       do_cleanup (S fuel) st =
         (run_body (k (-1)%Z);; free (Some a);; do_cleanup fuel) st1) ∧
    (g ∉ funcs l → malloc_ok (mallocs st) = true →
       (∃ st2, do_cleanup (S fuel) st =
                 (run_body (k 0%Z);; free (Some a);; do_cleanup fuel) st2 ∧
          wf st2 ((brk st, g) :: l) ∧
          log st2 = log st1 ++ [EvReg (brk st) g]) ∧
       (k 0%Z = Done →
          ∃ st3, do_cleanup (S (S fuel)) st =
                   (run_body (prog g);; free (Some (brk st));; do_cleanup fuel) st3 ∧
            wf st3 l ∧ heap st3 !! a = None ∧
            log st3 = log st ++ [EvCall a f; EvReg (brk st) g; EvCall (brk st) g])) ∧
    (g ∉ funcs l → malloc_ok (mallocs st) = false →
       ∃ st2, do_cleanup (S fuel) st =
                (run_body (k (-1)%Z);; free (Some a);; do_cleanup fuel) st2 ∧
         wf st2 l ∧ registry st2 = registry st1 ∧ log st2 = log st1).
Proof.
  intros Hwf Hf.
  pose proof Hwf as [Hc0 Hb0]. pose proof (chain_NoDup _ _ _ Hc0) as Hnd0.
  rewrite fmap_cons in Hnd0. apply NoDup_cons in Hnd0 as [Hal _].
  destruct (do_cleanup_turn st a f l fuel Hwf) as (nx & Ha & Hwf1 & Hrun).
  destruct (do_cleanup_turn st a f l (S fuel) Hwf) as (nx' & Ha' & _ & Hrun').
  assert (nx' = nx) as -> by congruence. clear Ha'.
  set (st1 := add_log (EvCall a f) (set_callbacks nx st)) in *.
  rewrite Hf in Hrun, Hrun'.
  change (run_body (CallRegister g k))
    with (r ← sudo_fatal_callback_register g; run_body (k r)) in Hrun, Hrun'.
  rewrite bind_assoc in Hrun, Hrun'.
  exists st1. split; [done|]. split; [done|]. split; [|split].
  - intros Hg. rewrite Hrun.
    by rewrite (bind_Return _ _ _ _ _ (register_duplicate st1 l g Hwf1 Hg)).
  - intros Hg Hm.
    pose proof (register_new st1 l g Hwf1 Hg Hm) as Hreg.
    pose proof (wf_registered st1 l g Hwf1) as Hwf2.
    split.
    + exists (registered g st1). split; [|done].
      rewrite Hrun. by rewrite (bind_Return _ _ _ _ _ Hreg).
    + intros Hk. rewrite Hrun'.
      rewrite (bind_Return _ _ _ _ _ Hreg), Hk.
      assert ((a < brk st)%positive) as Halt by (by apply Hb0 in Ha).
      assert (heap (registered g st1) !! a = Some (Callback nx f)) as Ha2.
      { simpl. rewrite lookup_insert_ne by lia. done. }
      set (st2 := set_heap (delete a (heap (registered g st1))) (registered g st1)).
      rewrite (bind_Return (run_body Done) _ _ (registered g st1) tt) by done.
      rewrite (bind_Return (free (Some a)) _ _ st2 tt)
        by (unfold free; by rewrite Ha2).
      assert (wf st2 ((brk st, g) :: l)) as Hwf3.
      { destruct Hwf2 as [Hc2 Hb2]. split; simpl.
        - apply (chain_frame (heap (registered g st1))); [done|].
          intros b Hin. apply lookup_delete_ne. intros <-.
          rewrite fmap_cons in Hin. apply elem_of_cons in Hin as [Hin|Hin]; [|done].
          simpl in Hin. lia.
        - apply map_Forall_delete. exact Hb2. }
      destruct (do_cleanup_turn st2 (brk st) g l fuel Hwf3) as (nxg & Hb & Hwf4 & ->).
      exists (add_log (EvCall (brk st) g) (set_callbacks nxg st2)).
      split; [done|]. split; [done|]. split.
      * simpl. apply lookup_delete_eq.
      * simpl. by rewrite <- !app_assoc.
  - intros Hg Hm.
    pose proof (register_no_memory st1 l g Hwf1 Hg Hm) as Hreg.
    exists (refused st1). split; [|split; [by apply wf_refused|done]].
    rewrite Hrun. by rewrite (bind_Return _ _ _ _ _ Hreg).
Qed.

(** ** More on the drain *)

(** X13.  After a drain of a well-formed registry has returned, the
    registry is the empty list: another drain returns at once and changes
    nothing, a deregistration finds nothing, and any function, those just
    invoked included, can be registered anew. *)
Theorem X13_registry_after_drain st l fuel st' :
  wf st l → do_cleanup fuel st = Return st' tt →
  wf st' [] ∧
  (∀ n, do_cleanup (S n) st' = Return st' tt) ∧
  (∀ f, sudo_fatal_callback_deregister f st' = Return st' (-1)%Z) ∧
  (∀ f, malloc_ok (mallocs st') = true →
     ∃ st'', sudo_fatal_callback_register f st' = Return st'' 0%Z ∧
       wf st'' [(brk st', f)]).
Proof.
  intros Hwf Hrun.
  destruct (do_cleanup_keeps (log st) l fuel st l [] st')
    as (evs & Hwf' & _); [by apply drain_inv_start|done|].
  split; [done|]. split; [|split].
  - intros n. apply do_cleanup_empty. by eapply do_cleanup_returns_empty.
  - intros f. apply (deregister_absent st' []); [done|apply not_elem_of_nil].
  - intros f Hm. exists (registered f st').
    split; [|by apply wf_registered].
    apply (register_new st' []); [done|apply not_elem_of_nil|done].
Qed.

(** X8.  When a drain of a well-formed registry returns, the block of every
    node that was on the list at the start has been freed, every block
    allocated by a registration during the drain has been freed as well, and
    the memory is otherwise as it was: the drain leaks nothing and touches
    nothing else, whatever its callbacks do. *)
Theorem X8_drain_frees_every_node st l fuel st' :
  wf st l → do_cleanup fuel st = Return st' tt →
  (∀ x, heap st' !! x = if decide (x ∈ l.*1) then None else heap st !! x) ∧
  (∀ x, (brk st ≤ x)%positive → heap st' !! x = None).
Proof.
  intros Hwf Hrun.
  destruct (do_cleanup_in_order fuel st l st' Hwf Hrun) as (evs & _ & _ & _ & Hheap).
  split; [exact Hheap|].
  intros x Hx. rewrite Hheap. apply (swept_gone st l Hwf). by right.
Qed.

(** X11.  When a drain of a well-formed registry returns, the entries that
    were on the list at the start have been invoked in the order of the list,
    first entry (the one registered last) first, leaving out exactly those
    that a callback deregistered, whatever else the callbacks registered and
    had invoked in between; no other block that existed at the start has been
    taken for a node and invoked.  When no callback deregisters, all of them
    have been invoked, in that order. *)
Theorem X11_drain_invokes_in_list_order st l fuel st' :
  wf st l → do_cleanup fuel st = Return st' tt →
  ∃ evs, log st' = log st ++ evs ∧
    calls_below (brk st) evs = kept evs l ∧
    ((∀ f, no_deregister (prog f) = true) → calls_below (brk st) evs = l).
Proof.
  intros Hwf Hrun.
  destruct (do_cleanup_in_order fuel st l st' Hwf Hrun)
    as (evs & Hlog & Hset & Hcalls & _).
  exists evs. split; [done|]. split; [done|].
  intros Hnd. rewrite Hcalls. apply kept_all. intros [a f] Hin. simpl.
  destruct (do_cleanup_register_only Hnd fuel st l st' Hwf Hrun)
    as (_ & evs' & Hlog' & Hone & _).
  rewrite Hlog in Hlog'. apply app_inv_head in Hlog' as <-.
  destruct (Hset a f Hin) as [[_ Hn]|[Hz _]]; [done|].
  rewrite (Hone a f Hin) in Hz. discriminate Hz.
Qed.

(** X16.  When no callback calls the deregister function, a drain of a
    well-formed registry never runs into undefined behaviour: after any number
    of turns it is still running or has returned, leaving the empty list; and
    a call of a fatal function is still running or has ended the process with
    the failure status. *)
Theorem X16_drain_without_deregistration_is_safe st l :
  wf st l → (∀ f, no_deregister (prog f) = true) →
  (∀ fuel, do_cleanup fuel st = OutOfFuel ∨
           ∃ st', do_cleanup fuel st = Return st' tt ∧ wf st' []) ∧
  (∀ e fuel errno fmt ap,
     call_fatal e fuel errno fmt ap st = OutOfFuel ∨
     ∃ st', call_fatal e fuel errno fmt ap st = Exit st' EXIT_FAILURE).
Proof.
  intros Hwf Hnd.
  assert (∀ fuel st l, wf st l →
            do_cleanup fuel st = OutOfFuel ∨
            ∃ st', do_cleanup fuel st = Return st' tt ∧ wf st' []) as Hsafe.
  { clear st l Hwf. induction fuel as [|fuel IH]; intros st l Hwf; [by left|].
    destruct l as [|[a f] l].
    - right. exists st. split; [|done].
      apply do_cleanup_empty. destruct Hwf as [Hc _]. by apply chain_nil in Hc.
    - destruct (do_cleanup_step st a f l (Hnd f) Hwf) as (st1 & new & Hstep & Hwf1 & _).
      rewrite Hstep. by apply (IH st1 (new ++ l)). }
  split; [intros fuel; by apply (Hsafe fuel st l)|].
  intros e fuel errno fmt ap.
  destruct (call_fatal_prints e errno fmt ap) as [line ->].
  destruct (Hsafe fuel (add_log (EvPrintf SUDO_CONV_ERROR_MSG line) st) l)
    as [Hrun|(st' & Hrun & _)]; [by destruct Hwf| |].
  - left. unfold mbind, M_bind. by rewrite Hrun.
  - right. exists st'. unfold mbind, M_bind. by rewrite Hrun.
Qed.

End THEORY.

(** * The scenarios, run *)

Lemma wf_after_12 :
  wf (after_registering [1; 2]%positive) [(2, 2); (1, 1)]%positive.
Proof. apply (bool_decide_unpack (wf _ _)). vm_compute. exact I. Qed.

(** The scenario of the spec: A, B and C registered in that order are invoked
    in the order C, B, A, and the registry ends empty. *)
Example drain_ABC :
  (λ st, (callbacks st, called (log st))) <$>
    state_of (do_cleanup (P := idle) 4 (after_registering [1; 2; 3]%positive))
  = Some (None, [3; 2; 1]%positive).
Proof. vm_compute. reflexivity. Qed.

(** C1.  Register the functions 1, 2 and 3, deregister 2, then drain.  The
    claim has the drain invoke 3 and then 1 and return; the code frees the
    node of 2 while the node of 3 still points at it, and the drain reads the
    freed node after it has invoked 3. *)
Theorem C1_deregister_middle_then_drain :
  (register_all (P := idle) [1; 2; 3]%positive;;
   sudo_fatal_callback_deregister 2%positive;;
   do_cleanup (P := idle) 4) initial_state
  = Undefined.
Proof. vm_compute. reflexivity. Qed.

(** C2, the claim as stated fails: the functions 1 and 2 are registered and
    the function 2 deregisters the function 1.  The drain invokes 2, whose
    call removes the node of 1 (by then the first node), and returns with an
    empty registry without having invoked 1. *)
Lemma C2_counterexample :
  ¬ (∀ (proc : Process) (st : state) (l : list (positive * positive))
       (fuel : nat) (st' : state),
       wf st l →
       do_cleanup fuel st = Return st' tt →
       callbacks st' = None ∧
       ∃ evs, log st' = log st ++ evs ∧
         ∀ a f, (a, f) ∈ l → calls a f evs = 1).
Proof.
  intros Hclaim.
  pose (st' := default initial_state (state_of
    (do_cleanup (P := two_deregisters_one) 3
       (after_registering [1; 2]%positive)))).
  destruct (Hclaim two_deregisters_one (after_registering [1; 2]%positive)
              [(2, 2); (1, 1)]%positive 3 st' wf_after_12)
    as (_ & evs & Hlog & Hone).
  { vm_compute. reflexivity. }
  assert (evs = [EvCall 2 2; EvDereg 1 1]) as ->.
  { apply (app_inv_head (log (after_registering [1; 2]%positive))).
    rewrite <- Hlog. vm_compute. reflexivity. }
  specialize (Hone 1%positive 1%positive).
  assert (calls 1 1 [EvCall 2 2; EvDereg 1 1] = 0) as E by (vm_compute; reflexivity).
  rewrite E in Hone. discriminate Hone.
  apply elem_of_cons. right. apply elem_of_cons. by left.
Qed.

(** C2, a use of the theorem: the functions 1, 2, 3 are registered and the
    function 3 registers the function 4 when it is invoked. *)
Lemma C2_witness :
  (∀ fuel st',
     do_cleanup (P := three_registers_four) fuel
       (after_registering [1; 2; 3]%positive) = Return st' tt →
     callbacks st' = None ∧
     ∃ evs, log st' = log (after_registering [1; 2; 3]%positive) ++ evs ∧
       ∀ a f, (a, f) ∈ [(3, 3); (2, 2); (1, 1)]%positive → settled a f evs) ∧
  ((∀ f, no_deregister (prog (Process := three_registers_four) f) = true) →
     (∀ fuel st',
        do_cleanup (P := three_registers_four) fuel
          (after_registering [1; 2; 3]%positive) = Return st' tt →
        ∃ evs, log st' = log (after_registering [1; 2; 3]%positive) ++ evs ∧
          ∀ a f, (a, f) ∈ [(3, 3); (2, 2); (1, 1)]%positive →
                 calls a f evs = 1) ∧
     (∀ n, Forall (λ x, settles (P := three_registers_four) n x.2 = true)
             [(3, 3); (2, 2); (1, 1)]%positive →
        ∃ fuel st',
          do_cleanup (P := three_registers_four) fuel
            (after_registering [1; 2; 3]%positive) = Return st' tt)).
Proof.
  apply (C2_drain_invokes_each_entry_once (proc := three_registers_four)
           (after_registering [1; 2; 3]%positive)
           [(3, 3); (2, 2); (1, 1)]%positive).
  apply (bool_decide_unpack (wf _ _)). vm_compute. exact I.
Defined.

(** C3, the claim as stated fails: the functions 1 and 2 are registered,
    the function 2 deregisters the function 1, and a fatal function is
    called.  The call prints its line and invokes 2, whose call removes the
    node of 1, by then the first node; with the registry empty the call ends
    the process, and the function 1 has not been invoked. *)
Lemma C3_counterexample :
  ¬ (∀ (proc : Process) (host : Host) (e : fatal_entry) (errno : Z)
       (fmt : option string) (ap : va_list) (st : state)
       (l : list (positive * positive)),
       wf st l →
       ∃ fuel st',
         call_fatal e fuel errno fmt ap st = Exit st' EXIT_FAILURE ∧
         ∃ line evs,
           log st' = log st ++ EvPrintf SUDO_CONV_ERROR_MSG line :: evs ∧
           printed evs = [] ∧
           ∀ a f, (a, f) ∈ l → EvCall a f ∈ evs).
Proof.
  intros Hclaim.
  destruct (Hclaim two_deregisters_one plain_host Fatalx 0%Z None []
              (after_registering [1; 2]%positive) [(2, 2); (1, 1)]%positive
              wf_after_12)
    as (fuel & st' & Hexit & line & evs & Hlog & _ & Hall).
  assert (evs = [EvCall 2 2; EvDereg 1 1]) as ->.
  { destruct fuel as [|[|fuel]]; try (vm_compute in Hexit; discriminate Hexit).
    vm_compute in Hexit. injection Hexit as <-.
    vm_compute in Hlog. by injection Hlog as _ <-. }
  specialize (Hall 1%positive 1%positive).
  assert (EvCall 1 1 ∉ [EvCall 2 2; EvDereg 1 1]) as Hnot.
  { apply (bool_decide_unpack (_ ∉ _)). vm_compute. exact I. }
  apply Hnot, Hall. apply elem_of_cons. right. apply elem_of_cons. by left.
Qed.

(** C3, a use of the theorem: the scenario of the spec, a fatal call with
    errno 2 and the template "cannot open %s" for the argument "file". *)
Lemma C3_witness :
  (∀ fuel st' u,
     call_fatal (P := three_registers_four) (H := plain_host) Fatal fuel 2
       (Some "cannot open %s") ["file"]
       (after_registering [1; 2; 3]%positive) ≠ Return st' u) ∧
  (∀ fuel st' c,
     call_fatal (P := three_registers_four) (H := plain_host) Fatal fuel 2
       (Some "cannot open %s") ["file"]
       (after_registering [1; 2; 3]%positive) = Exit st' c →
     c = EXIT_FAILURE ∧ callbacks st' = None ∧
     ∃ line evs,
       log st' = log (after_registering [1; 2; 3]%positive)
                   ++ EvPrintf SUDO_CONV_ERROR_MSG line :: evs ∧
       printed evs = [] ∧
       (∀ tmpl msg,
          fatal_errnum Fatal 2 ≠ 0%Z → Some "cannot open %s" = Some tmpl →
          sudo_evasprintf (Host := plain_host) (Some "cannot open %s") ["file"]
          = Some msg →
          line = getprogname (Host := plain_host) +:+ ": " +:+ msg +:+ ": "
                   +:+ sudo_warn_strerror (Host := plain_host)
                         (fatal_errnum Fatal 2) +:+ newline) ∧
       (fatal_errnum Fatal 2 ≠ 0%Z → Some "cannot open %s" = None →
          line = getprogname (Host := plain_host) +:+ ": "
                   +:+ sudo_warn_strerror (Host := plain_host)
                         (fatal_errnum Fatal 2) +:+ newline) ∧
       (fatal_errnum Fatal 2 = 0%Z →
          line = getprogname (Host := plain_host) +:+ ": "
                   +:+ default "(null)"
                         (sudo_evasprintf (Host := plain_host)
                            (Some "cannot open %s") ["file"]) +:+ newline) ∧
       (∀ a f, (a, f) ∈ [(3, 3); (2, 2); (1, 1)]%positive → settled a f evs) ∧
       ((∀ f, no_deregister (prog (Process := three_registers_four) f) = true) →
          ∀ a f, (a, f) ∈ [(3, 3); (2, 2); (1, 1)]%positive →
                 calls a f evs = 1)) ∧
  ((∀ f, no_deregister (prog (Process := three_registers_four) f) = true) →
     ∀ n, Forall (λ x, settles (P := three_registers_four) n x.2 = true)
            [(3, 3); (2, 2); (1, 1)]%positive →
       ∃ fuel st',
         call_fatal (P := three_registers_four) (H := plain_host) Fatal fuel 2
           (Some "cannot open %s") ["file"]
           (after_registering [1; 2; 3]%positive) = Exit st' EXIT_FAILURE).
Proof.
  apply (C3_fatal_prints_drains_exits (proc := three_registers_four)
           (host := plain_host) Fatal 2 (Some "cannot open %s") ["file"]
           (after_registering [1; 2; 3]%positive)
           [(3, 3); (2, 2); (1, 1)]%positive).
  apply (bool_decide_unpack (wf _ _)). vm_compute. exact I.
Defined.

(** The same scenario run: the line, then 3, the newly registered 4, 2
    and 1, then exit with status 1. *)
Example fatal_scenario :
  match call_fatal (P := three_registers_four) (H := plain_host) Fatal 6 2
          (Some "cannot open %s") ["file"]
          (after_registering [1; 2; 3]%positive) with
  | Exit st c => Some (c, printed (log st), called (log st), callbacks st)
  | _ => None
  end
  = Some (1%Z, ["sudo: cannot open file: No such file or directory" +:+ newline],
          [3; 4; 2; 1]%positive, None).
Proof. vm_compute. reflexivity. Qed.

(** The scenario of the spec for the warn family: the warn function without
    errno, called with a null template, prints the program name and the text
    (null), and returns. *)
Example warnx_null_template :
  sudo_warnx_nodebug (H := plain_host) None [] initial_state
  = Return (add_log (EvPrintf SUDO_CONV_ERROR_MSG ("sudo: (null)" +:+ newline))
              initial_state) tt.
Proof. reflexivity. Qed.

(** C5, a use of the theorem: the function 2 is registered a second time
    after 1, 2 and 3 have been registered. *)
Lemma C5_witness :
  (2%positive ∈ funcs [(3, 3); (2, 2); (1, 1)]%positive →
   sudo_fatal_callback_register (P := idle) 2
     (after_registering [1; 2; 3]%positive)
   = Return (after_registering [1; 2; 3]%positive) (-1)%Z) ∧
  (no_duplicates (after_registering [1; 2; 3]%positive) →
     (∃ st' r,
        sudo_fatal_callback_register (P := idle) 2
          (after_registering [1; 2; 3]%positive) = Return st' r ∧
        no_duplicates st') ∧
     (∀ st' r,
        sudo_fatal_callback_deregister 2
          (after_registering [1; 2; 3]%positive) = Return st' r →
        no_duplicates st') ∧
     (∀ fuel st',
        do_cleanup (P := idle) fuel
          (after_registering [1; 2; 3]%positive) = Return st' tt →
        no_duplicates st')).
Proof.
  apply (C5_duplicate_register_rejected (proc := idle)
           (after_registering [1; 2; 3]%positive)
           [(3, 3); (2, 2); (1, 1)]%positive 2%positive).
  apply (bool_decide_unpack (wf _ _)). vm_compute. exact I.
Defined.

(** C6.  With 1 and 2 registered, deregistering 1 (the last node, not the
    first) dereferences the null pointer that follows it.  With 1, 2 and 3
    registered, deregistering 2 returns 0, but the node of 2 has been freed
    while the node of 3, still first, still points at it.  The claim has
    either call remove exactly the node named and return 0. *)
Theorem C6_deregister_not_first :
  (register_all (P := idle) [1; 2]%positive;;
   sudo_fatal_callback_deregister 1%positive) initial_state = Undefined ∧
  match (register_all (P := idle) [1; 2; 3]%positive;;
         sudo_fatal_callback_deregister 2%positive) initial_state with
  | Return st r =>
    Some (r, callbacks st, entries <$> heap st !! 3%positive,
          heap st !! 2%positive, entries <$> heap st !! 1%positive)
  | _ => None
  end
  = Some (0%Z, Some 3%positive, Some (Some 2%positive), None, Some None).
Proof. split; vm_compute; reflexivity. Qed.

(** C8.  errno is 2, the template is "cannot open %s", and the formatter
    fails.  The code passes the null string to the three-part format, so the
    line has whatever the output channel prints for a null string in the
    middle; the claim has the call print the line of a call without a
    template, which is the second line below. *)
Theorem C8_format_failure_with_errno :
  printed <$> (log <$> state_of
    (_warning (H := failing_host) 2 (Some "cannot open %s") ["file"]
       initial_state))
  = Some ["sudo: (null): No such file or directory" +:+ newline] ∧
  printed <$> (log <$> state_of
    (_warning (H := failing_host) 2 None ["file"] initial_state))
  = Some ["sudo: No such file or directory" +:+ newline].
Proof. split; vm_compute; reflexivity. Qed.

(** C9.  The functions 1 to 4 are registered and the function 4 deregisters
    the function 2.  The drain invokes 4, whose call frees the node of 2 and
    leaves it on the list, then invokes 3, then reads the freed node: the
    callback has corrupted the iteration, and the function 1 is never
    reached.  The claim has the drain go on to invoke 1 and return. *)
Theorem C9_callback_deregisters_during_drain (fuel : nat) :
  do_cleanup (P := four_deregisters_two) (3 + fuel)
    (after_registering [1; 2; 3; 4]%positive)
  = Undefined.
Proof. vm_compute. reflexivity. Qed.

(** C10, the claim as stated fails: the functions 1, 2 and 3 are registered
    and the function 3 registers the function 4 and deregisters it again.
    The node of 4 is first on the list when it is deregistered, so that it is
    removed and freed; the drain goes on to invoke 2 and 1 and returns, and
    the function 4, registered during the drain, has not been invoked. *)
Lemma C10_counterexample :
  ¬ (∀ (proc : Process) (st : state) (l : list (positive * positive))
       (fuel : nat) (st' : state),
       wf st l →
       do_cleanup fuel st = Return st' tt →
       ∃ evs, log st' = log st ++ evs ∧
         ∀ a f, EvReg a f ∈ evs → EvCall a f ∈ evs).
Proof.
  intros Hclaim.
  destruct (Hclaim three_registers_and_drops_four
              (after_registering [1; 2; 3]%positive)
              [(3, 3); (2, 2); (1, 1)]%positive 4
              (drained (P := three_registers_and_drops_four) 4
                 (after_registering [1; 2; 3]%positive)))
    as (evs & Hlog & Hreg).
  { apply (bool_decide_unpack (wf _ _)). vm_compute. exact I. }
  { vm_compute. reflexivity. }
  assert (evs = [EvCall 3 3; EvReg 4 4; EvDereg 4 4; EvCall 2 2; EvCall 1 1])
    as ->.
  { apply (app_inv_head (log (after_registering [1; 2; 3]%positive))).
    rewrite <- Hlog. vm_compute. reflexivity. }
  specialize (Hreg 4%positive 4%positive).
  assert (EvCall 4 4 ∉ [EvCall 3 3; EvReg 4 4; EvDereg 4 4; EvCall 2 2; EvCall 1 1])
    as Hnot.
  { apply (bool_decide_unpack (_ ∉ _)). vm_compute. exact I. }
  apply Hnot, Hreg. apply elem_of_cons. right. apply elem_of_cons. by left.
Qed.

(** A callback that registers itself again when malloc finds no more memory:
    the registration is turned away and the drain returns. *)
Example drain_of_self_registering_without_memory :
  let P := {| malloc_ok := λ n, bool_decide (n < 1);
              prog := prog (Process := one_registers_itself) |} in
  (λ st, (callbacks st, called (log st))) <$>
    state_of (do_cleanup (P := P) 2
                (default initial_state
                   (state_of (register_all (P := P) [1%positive] initial_state))))
  = Some (None, [1%positive]).
Proof. vm_compute. reflexivity. Qed.

(** C10, a use of the theorem: the functions 1, 2, 3 are registered and the
    function 3 registers the function 4 when it is invoked. *)
Lemma C10_witness :
  (∀ fuel st',
     do_cleanup (P := three_registers_four) fuel
       (after_registering [1; 2; 3]%positive) = Return st' tt →
     callbacks st' = None ∧
     ∃ evs, log st' = log (after_registering [1; 2; 3]%positive) ++ evs ∧
       ∀ a f, EvReg a f ∈ evs → settled a f evs) ∧
  ((∀ f, no_deregister (prog (Process := three_registers_four) f) = true) →
     (∀ fuel st',
        do_cleanup (P := three_registers_four) fuel
          (after_registering [1; 2; 3]%positive) = Return st' tt →
        ∃ evs, log st' = log (after_registering [1; 2; 3]%positive) ++ evs ∧
          ∀ a f, EvReg a f ∈ evs → EvCall a f ∈ evs) ∧
     (∀ n, Forall (λ x, settles (P := three_registers_four) n x.2 = true)
             [(3, 3); (2, 2); (1, 1)]%positive →
        ∃ fuel st',
          do_cleanup (P := three_registers_four) fuel
            (after_registering [1; 2; 3]%positive) = Return st' tt) ∧
     (∀ f k,
        f ∈ funcs [(3, 3); (2, 2); (1, 1)]%positive →
        prog (Process := three_registers_four) f = CallRegister f k →
        (∀ n, malloc_ok (Process := three_registers_four) n = true) →
        ∀ fuel,
          do_cleanup (P := three_registers_four) fuel
            (after_registering [1; 2; 3]%positive) = OutOfFuel)).
Proof.
  apply (C10_drain_runs_late_registrations (proc := three_registers_four)
           (after_registering [1; 2; 3]%positive)
           [(3, 3); (2, 2); (1, 1)]%positive).
  apply (bool_decide_unpack (wf _ _)). vm_compute. exact I.
Defined.

(** The drain with the late registration, run: 3, then the function 4 it
    registered, then 2 and 1. *)
Example drain_with_late_registration :
  (λ st, (callbacks st, called (log st))) <$>
    state_of (do_cleanup (P := three_registers_four) 5
                (after_registering [1; 2; 3]%positive))
  = Some (None, [3; 4; 2; 1]%positive).
Proof. vm_compute. reflexivity. Qed.

(** A callback that registers itself again: the drain of a registry that
    holds it is still running after any number of turns. *)
Example drain_of_self_registering (fuel : nat) :
  do_cleanup (P := one_registers_itself) fuel
    (after_registering [1]%positive) = OutOfFuel.
Proof.
  apply (do_cleanup_reregister (proc := one_registers_itself)
           1%positive (λ _, Done)) with (a := 1%positive) (l := []); try done.
  - apply (bool_decide_unpack (wf _ _)). vm_compute. exact I.
  - apply not_elem_of_nil.
Qed.

(** The same callback further down the list: with 1 and 2 registered, the
    drain invokes 2 and then 1 again and again. *)
Example drain_with_self_registering_entry (fuel : nat) :
  do_cleanup (P := one_registers_itself) fuel
    (after_registering [1; 2]%positive) = OutOfFuel.
Proof.
  apply (do_cleanup_self_registering (proc := one_registers_itself)
           1%positive (λ _, Done)) with (l := [(2, 2); (1, 1)]%positive).
  - intros g. simpl. by destruct (decide (g = 1%positive)).
  - done.
  - done.
  - apply (bool_decide_unpack (wf _ _)). vm_compute. exact I.
  - apply (bool_decide_unpack (_ ∈ _)). vm_compute. exact I.
Qed.

(** X1, a use of the theorem: the functions 1, 2 and 3. *)
Lemma X1_witness :
  ∃ st', (register_all (P := idle) [1; 2; 3]%positive;;
          do_cleanup (P := idle) (S (length [1; 2; 3]%positive))) initial_state
           = Return st' tt ∧
    callbacks st' = None ∧ called (log st') = reverse [1; 2; 3]%positive.
Proof.
  apply (X1_registrations_drain_last_in_first_out (proc := idle)
           [1; 2; 3]%positive).
  - reflexivity.
  - apply (bool_decide_unpack (NoDup _)). vm_compute. exact I.
  - repeat constructor.
Defined.

(** X2, a use of the theorem: deregistering 3 after 1, 2 and 3 have been
    registered. *)
Lemma X2_witness :
  (3%positive ∉ funcs [(3, 3); (2, 2); (1, 1)]%positive →
   sudo_fatal_callback_deregister 3 (after_registering [1; 2; 3]%positive)
   = Return (after_registering [1; 2; 3]%positive) (-1)%Z) ∧
  (∀ a l', [(3, 3); (2, 2); (1, 1)]%positive = (a, 3%positive) :: l' →
     ∃ st', sudo_fatal_callback_deregister 3
              (after_registering [1; 2; 3]%positive) = Return st' 0%Z ∧
       wf st' l' ∧
       heap st' = delete a (heap (after_registering [1; 2; 3]%positive)) ∧
       log st' = log (after_registering [1; 2; 3]%positive) ++ [EvDereg a 3]).
Proof.
  apply (X2_deregister_absent_or_first
           (after_registering [1; 2; 3]%positive)
           [(3, 3); (2, 2); (1, 1)]%positive 3%positive).
  apply (bool_decide_unpack (wf _ _)). vm_compute. exact I.
Defined.

(** X3, a use of the theorem: the first registration of a process without
    memory. *)
Lemma X3_witness :
  ∃ st', sudo_fatal_callback_register (P := starved) 1 initial_state
           = Return st' (-1)%Z ∧
    registry st' = registry initial_state ∧ log st' = log initial_state ∧
    wf st' [].
Proof.
  apply (X3_register_without_memory (proc := starved) initial_state []
           1%positive).
  - apply (bool_decide_unpack (wf _ _)). vm_compute. exact I.
  - apply not_elem_of_nil.
  - reflexivity.
Defined.

(** X4, a use of the theorem: the first turn of the drain after 1, 2 and 3
    have been registered. *)
Lemma X4_witness :
  ∃ st1, do_cleanup (P := idle) (S 3) (after_registering [1; 2; 3]%positive) =
           (run_body (P := idle) (prog (Process := idle) 3);;
            free (Some 3%positive);;
            do_cleanup (P := idle) 3) st1 ∧
    wf st1 [(2, 2); (1, 1)]%positive ∧
    (3%positive ∉ [(2, 2); (1, 1)]%positive.*1) ∧
    is_Some (heap st1 !! 3%positive) ∧
    log st1 = log (after_registering [1; 2; 3]%positive) ++ [EvCall 3 3].
Proof.
  apply (X4_entry_removed_before_invoked (proc := idle)
           (after_registering [1; 2; 3]%positive) 3 3
           [(2, 2); (1, 1)]%positive 3).
  apply (bool_decide_unpack (wf _ _)). vm_compute. exact I.
Defined.

(** X5, a use of the theorem: the function 3 is registered after 1 and 2. *)
Lemma X5_witness :
  ∃ st' r,
    sudo_fatal_callback_register (P := idle) 3
      (after_registering [1; 2]%positive) = Return st' r ∧
    (r = 0%Z ∨ r = (-1)%Z) ∧
    (r = 0%Z ↔
       3%positive ∉ funcs [(2, 2); (1, 1)]%positive ∧
       malloc_ok (Process := idle)
         (mallocs (after_registering [1; 2]%positive)) = true) ∧
    (r = 0%Z →
       wf st' ((brk (after_registering [1; 2]%positive), 3%positive)
                 :: [(2, 2); (1, 1)]%positive) ∧
       heap (after_registering [1; 2]%positive)
         !! brk (after_registering [1; 2]%positive) = None ∧
       heap st' = <[brk (after_registering [1; 2]%positive)
                    := Callback (callbacks (after_registering [1; 2]%positive))
                         3%positive]>
                    (heap (after_registering [1; 2]%positive)) ∧
       log st' = log (after_registering [1; 2]%positive)
                   ++ [EvReg (brk (after_registering [1; 2]%positive)) 3]) ∧
    (r = (-1)%Z →
       wf st' [(2, 2); (1, 1)]%positive ∧
       registry st' = registry (after_registering [1; 2]%positive) ∧
       log st' = log (after_registering [1; 2]%positive)).
Proof.
  apply (X5_register_result (proc := idle)
           (after_registering [1; 2]%positive) [(2, 2); (1, 1)]%positive
           3%positive).
  apply (bool_decide_unpack (wf _ _)). vm_compute. exact I.
Defined.

(** X6, a use of the theorem: 1, 2 and 3 are registered, then 3, 2 and 1
    are deregistered. *)
Lemma X6_witness :
  ∃ st', (register_all (P := idle) [1; 2; 3]%positive;;
          deregister_all (reverse [1; 2; 3]%positive)) initial_state
           = Return st' tt ∧
    registry st' = registry initial_state ∧ wf st' [].
Proof.
  apply (X6_deregister_in_reverse_order (proc := idle) [1; 2; 3]%positive
           initial_state []).
  - reflexivity.
  - apply (bool_decide_unpack (NoDup _)). vm_compute. exact I.
  - apply (bool_decide_unpack (wf _ _)). vm_compute. exact I.
  - intros f _. apply not_elem_of_nil.
Defined.

(** X7, a use of the theorem: 1, 2 and 3 are registered and 2, whose entry
    is the second of three, is deregistered. *)
Lemma X7_witness :
  ([(1, 1)]%positive = [] →
   sudo_fatal_callback_deregister 2 (after_registering [1; 2; 3]%positive)
   = Undefined) ∧
  ([(1, 1)]%positive ≠ [] →
   ∃ st',
     sudo_fatal_callback_deregister 2 (after_registering [1; 2; 3]%positive)
     = Return st' 0%Z ∧
     heap st' = delete 2%positive (heap (after_registering [1; 2; 3]%positive)) ∧
     callbacks st' = callbacks (after_registering [1; 2; 3]%positive) ∧
     path (heap st') (callbacks st') [(3, 3)]%positive (Some 2%positive) ∧
     (∀ g, g ∉ funcs [(3, 3)]%positive →
        sudo_fatal_callback_register (P := idle) g st' = Undefined ∧
        sudo_fatal_callback_deregister g st' = Undefined) ∧
     (∀ fuel st'', do_cleanup (P := idle) fuel st' ≠ Return st'' tt) ∧
     (Forall (λ x, prog (Process := idle) x.2 = Done) [(3, 3)]%positive →
        ∀ fuel, length [(3, 3)]%positive < fuel →
          do_cleanup (P := idle) fuel st' = Undefined) ∧
     (∀ (e : fatal_entry) (fuel : nat) (errno : Z) (fmt : option string)
        (ap : va_list (Host := plain_host)) st'' c,
        call_fatal (P := idle) (H := plain_host) e fuel errno fmt ap st'
        ≠ Exit st'' c)).
Proof.
  apply (X7_deregister_entry_not_first (proc := idle) (host := plain_host)
           (after_registering [1; 2; 3]%positive)
           [(3, 3)]%positive 2%positive 2%positive [(1, 1)]%positive).
  - apply (bool_decide_unpack (wf _ _)). vm_compute. exact I.
  - discriminate.
  - apply (bool_decide_unpack (_ ∉ _)). vm_compute. exact I.
Defined.

(** X8, a use of the theorem: the drain of the registry of 1, 2 and 3, in
    which the function 3 registers the function 4. *)
Lemma X8_witness :
  (∀ x, heap (drained (P := three_registers_four) 5
                (after_registering [1; 2; 3]%positive)) !! x
        = if decide (x ∈ [(3, 3); (2, 2); (1, 1)]%positive.*1) then None
          else heap (after_registering [1; 2; 3]%positive) !! x) ∧
  (∀ x, (brk (after_registering [1; 2; 3]%positive) ≤ x)%positive →
        heap (drained (P := three_registers_four) 5
                (after_registering [1; 2; 3]%positive)) !! x = None).
Proof.
  apply (X8_drain_frees_every_node (proc := three_registers_four)
           (after_registering [1; 2; 3]%positive)
           [(3, 3); (2, 2); (1, 1)]%positive 5).
  - apply (bool_decide_unpack (wf _ _)). vm_compute. exact I.
  - vm_compute. reflexivity.
Defined.

(** X9, a use of the theorem: the process has registered 1, then 2. *)
Lemma X9_witness :
  ∃ l, wf (after_registering [1; 2]%positive) l ∧
    entries_of (after_registering [1; 2]%positive) = l ∧
    NoDup l.*1 ∧ NoDup (funcs l).
Proof.
  apply (X9_registry_stays_well_formed (proc := idle) (host := plain_host)).
  apply (reachable_register (after_registering [1]%positive) 2%positive _ 0%Z).
  - apply (reachable_register initial_state 1%positive _ 0%Z).
    + apply reachable_start.
    + vm_compute. reflexivity.
  - vm_compute. reflexivity.
Defined.

(** X10, a use of the theorem: 1 and 2 are registered and the function 2
    deregisters the function 1. *)
Lemma X10_witness :
  ∃ st1, wf st1 [(1, 1)]%positive ∧
    log st1 = log (after_registering [1; 2]%positive) ++ [EvCall 2 2] ∧
    (1%positive ∉ funcs [(1, 1)]%positive →
       do_cleanup (P := two_deregisters_one) (S 2)
         (after_registering [1; 2]%positive) =
         (run_body (P := two_deregisters_one) Done;; free (Some 2%positive);;
          do_cleanup (P := two_deregisters_one) 2) st1) ∧
    (∀ b l', [(1, 1)]%positive = (b, 1%positive) :: l' →
       ∃ st2, do_cleanup (P := two_deregisters_one) (S 2)
                (after_registering [1; 2]%positive) =
                (run_body (P := two_deregisters_one) Done;;
                 free (Some 2%positive);;
                 do_cleanup (P := two_deregisters_one) 2) st2 ∧
         wf st2 l' ∧ heap st2 = delete b (heap st1) ∧
         log st2 = log st1 ++ [EvDereg b 1]) ∧
    (∀ l1 b l2, [(1, 1)]%positive = l1 ++ (b, 1%positive) :: l2 →
       l1 ≠ [] → 1%positive ∉ funcs l1 →
       ∀ st', do_cleanup (P := two_deregisters_one) (S 2)
                (after_registering [1; 2]%positive) ≠ Return st' tt).
Proof.
  apply (X10_deregister_inside_callback (proc := two_deregisters_one)
           (after_registering [1; 2]%positive) 2%positive 2%positive
           [(1, 1)]%positive 1%positive (λ _, Done) 2).
  - apply (bool_decide_unpack (wf _ _)). vm_compute. exact I.
  - reflexivity.
Defined.

(** X11, a use of the theorem: the drain of the registry of 1 and 2, in
    which the function 2 deregisters the function 1. *)
Lemma X11_witness :
  ∃ evs,
    log (drained (P := two_deregisters_one) 3
           (after_registering [1; 2]%positive))
    = log (after_registering [1; 2]%positive) ++ evs ∧
    calls_below (brk (after_registering [1; 2]%positive)) evs
    = kept evs [(2, 2); (1, 1)]%positive ∧
    ((∀ f, no_deregister (prog (Process := two_deregisters_one) f) = true) →
       calls_below (brk (after_registering [1; 2]%positive)) evs
       = [(2, 2); (1, 1)]%positive).
Proof.
  apply (X11_drain_invokes_in_list_order (proc := two_deregisters_one)
           (after_registering [1; 2]%positive) [(2, 2); (1, 1)]%positive 3).
  - apply (bool_decide_unpack (wf _ _)). vm_compute. exact I.
  - vm_compute. reflexivity.
Defined.

(** The same drain, run: of the two entries only that of 2 is invoked. *)
Example drain_with_deregistration :
  let st := drained (P := two_deregisters_one) 3
              (after_registering [1; 2]%positive) in
  (called (log st), callbacks st, heap st)
  = ([2%positive], None, ∅).
Proof. vm_compute. reflexivity. Qed.

(** X12, a use of the theorem: 3 is deregistered and registered again after
    1, 2 and 3 have been registered. *)
Lemma X12_witness :
  ∃ st', (sudo_fatal_callback_deregister 3;;
          sudo_fatal_callback_register (P := idle) 3)
           (after_registering [1; 2; 3]%positive) = Return st' 0%Z ∧
    wf st' ((brk (after_registering [1; 2; 3]%positive), 3%positive)
              :: [(2, 2); (1, 1)]%positive) ∧
    3%positive ≠ brk (after_registering [1; 2; 3]%positive) ∧
    heap st' !! 3%positive = None.
Proof.
  apply (X12_deregister_then_register (proc := idle)
           (after_registering [1; 2; 3]%positive) 3%positive 3%positive
           [(2, 2); (1, 1)]%positive).
  - apply (bool_decide_unpack (wf _ _)). vm_compute. exact I.
  - apply (bool_decide_unpack (_ ∉ _)). vm_compute. exact I.
  - reflexivity.
Defined.

(** X13, a use of the theorem: the registry of 1, 2 and 3 after its drain. *)
Lemma X13_witness :
  wf (drained (P := idle) 4 (after_registering [1; 2; 3]%positive)) [] ∧
  (∀ n, do_cleanup (P := idle) (S n)
          (drained (P := idle) 4 (after_registering [1; 2; 3]%positive))
        = Return (drained (P := idle) 4 (after_registering [1; 2; 3]%positive))
            tt) ∧
  (∀ f, sudo_fatal_callback_deregister f
          (drained (P := idle) 4 (after_registering [1; 2; 3]%positive))
        = Return (drained (P := idle) 4 (after_registering [1; 2; 3]%positive))
            (-1)%Z) ∧
  (∀ f, malloc_ok (Process := idle)
          (mallocs (drained (P := idle) 4
                      (after_registering [1; 2; 3]%positive))) = true →
     ∃ st'', sudo_fatal_callback_register (P := idle) f
               (drained (P := idle) 4 (after_registering [1; 2; 3]%positive))
             = Return st'' 0%Z ∧
       wf st'' [(brk (drained (P := idle) 4
                        (after_registering [1; 2; 3]%positive)), f)]).
Proof.
  apply (X13_registry_after_drain (proc := idle)
           (after_registering [1; 2; 3]%positive)
           [(3, 3); (2, 2); (1, 1)]%positive 4).
  - apply (bool_decide_unpack (wf _ _)). vm_compute. exact I.
  - vm_compute. reflexivity.
Defined.

(** X14, a use of the theorem: 1, 2 and 3 are registered and the function 3
    registers the function 4. *)
Lemma X14_witness :
  ∃ st1, wf st1 [(2, 2); (1, 1)]%positive ∧
    log st1 = log (after_registering [1; 2; 3]%positive) ++ [EvCall 3 3] ∧
    (4%positive ∈ funcs [(2, 2); (1, 1)]%positive →
       do_cleanup (P := three_registers_four) (S 3)
         (after_registering [1; 2; 3]%positive) =
         (run_body (P := three_registers_four) Done;; free (Some 3%positive);;
          do_cleanup (P := three_registers_four) 3) st1) ∧
    (4%positive ∉ funcs [(2, 2); (1, 1)]%positive →
     malloc_ok (Process := three_registers_four)
       (mallocs (after_registering [1; 2; 3]%positive)) = true →
       (∃ st2, do_cleanup (P := three_registers_four) (S 3)
                 (after_registering [1; 2; 3]%positive) =
                 (run_body (P := three_registers_four) Done;;
                  free (Some 3%positive);;
                  do_cleanup (P := three_registers_four) 3) st2 ∧
          wf st2 ((brk (after_registering [1; 2; 3]%positive), 4%positive)
                    :: [(2, 2); (1, 1)]%positive) ∧
          log st2 = log st1
                      ++ [EvReg (brk (after_registering [1; 2; 3]%positive)) 4]) ∧
       (Done = Done →
          ∃ st3, do_cleanup (P := three_registers_four) (S (S 3))
                   (after_registering [1; 2; 3]%positive) =
                   (run_body (P := three_registers_four)
                      (prog (Process := three_registers_four) 4);;
                    free (Some (brk (after_registering [1; 2; 3]%positive)));;
                    do_cleanup (P := three_registers_four) 3) st3 ∧
            wf st3 [(2, 2); (1, 1)]%positive ∧
            heap st3 !! 3%positive = None ∧
            log st3 = log (after_registering [1; 2; 3]%positive)
                        ++ [EvCall 3 3;
                            EvReg (brk (after_registering [1; 2; 3]%positive)) 4;
                            EvCall (brk (after_registering [1; 2; 3]%positive)) 4])) ∧
    (4%positive ∉ funcs [(2, 2); (1, 1)]%positive →
     malloc_ok (Process := three_registers_four)
       (mallocs (after_registering [1; 2; 3]%positive)) = false →
       ∃ st2, do_cleanup (P := three_registers_four) (S 3)
                (after_registering [1; 2; 3]%positive) =
                (run_body (P := three_registers_four) Done;;
                 free (Some 3%positive);;
                 do_cleanup (P := three_registers_four) 3) st2 ∧
         wf st2 [(2, 2); (1, 1)]%positive ∧
         registry st2 = registry st1 ∧ log st2 = log st1).
Proof.
  apply (X14_register_inside_callback (proc := three_registers_four)
           (after_registering [1; 2; 3]%positive) 3%positive 3%positive
           [(2, 2); (1, 1)]%positive 4%positive (λ _, Done) 3).
  - apply (bool_decide_unpack (wf _ _)). vm_compute. exact I.
  - reflexivity.
Defined.

(** X15, a use of the theorem: the registrations 1, 2, 1, 3, 2, in that
    order. *)
Lemma X15_witness :
  ∃ st' l,
    register_all (P := idle) [1; 2; 1; 3; 2]%positive initial_state
    = Return st' tt ∧
    wf st' l ∧ funcs l = remove_dups (reverse [1; 2; 1; 3; 2]%positive) ∧
    (Forall (λ f, prog (Process := idle) f = Done) [1; 2; 1; 3; 2]%positive →
       ∃ st'', do_cleanup (P := idle) (S (length [1; 2; 1; 3; 2]%positive)) st'
               = Return st'' tt ∧
         callbacks st'' = None ∧
         called (log st'') = remove_dups (reverse [1; 2; 1; 3; 2]%positive)).
Proof.
  apply (X15_repeated_registrations (proc := idle) [1; 2; 1; 3; 2]%positive).
  reflexivity.
Defined.

(** The same registrations, run: the drain invokes 3, then 2, then 1. *)
Example drain_after_repeated_registrations :
  called (log (drained (P := idle) 6
                 (after_registering [1; 2; 1; 3; 2]%positive)))
  = [3; 2; 1]%positive ∧
  remove_dups (reverse [1; 2; 1; 3; 2]%positive) = [3; 2; 1]%positive.
Proof. split; vm_compute; reflexivity. Qed.

(** X16, a use of the theorem: the registry of 1, 2 and 3, in which the
    function 3 registers the function 4. *)
Lemma X16_witness :
  (∀ fuel,
     do_cleanup (P := three_registers_four) fuel
       (after_registering [1; 2; 3]%positive) = OutOfFuel ∨
     ∃ st', do_cleanup (P := three_registers_four) fuel
              (after_registering [1; 2; 3]%positive) = Return st' tt ∧
       wf st' []) ∧
  (∀ (e : fatal_entry) (fuel : nat) (errno : Z) (fmt : option string)
     (ap : va_list (Host := plain_host)),
     call_fatal (P := three_registers_four) (H := plain_host) e fuel errno fmt ap
       (after_registering [1; 2; 3]%positive) = OutOfFuel ∨
     ∃ st', call_fatal (P := three_registers_four) (H := plain_host) e fuel
              errno fmt ap (after_registering [1; 2; 3]%positive)
            = Exit st' EXIT_FAILURE).
Proof.
  apply (X16_drain_without_deregistration_is_safe
           (proc := three_registers_four) (host := plain_host)
           (after_registering [1; 2; 3]%positive)
           [(3, 3); (2, 2); (1, 1)]%positive).
  - apply (bool_decide_unpack (wf _ _)). vm_compute. exact I.
  - intros f. simpl. by destruct (decide (f = 3%positive)).
Defined.
